(** * The BX type checker (bxc/bxlib/bxtychecker.py) over the BX syntax
      tree (bxc/bxlib/bxast.py)

    The Python checker walks a mutable syntax tree, writes the inferred
    type of every expression into the node, records diagnostics in a
    reporter and keeps a scope chain, the enclosing procedure and a loop
    counter in the checker object.  Here the checker object is an explicit
    state, Python exceptions are an explicit outcome, and the walk returns
    the annotated copy of the node it was given.  A tree is taken as the
    parser builds it, no node being shared between two places; when the
    walk raises, the state it had reached is kept and the partly annotated
    tree is not returned. *)

From Stdlib Require Import ZArith String DecimalString.
From stdpp Require Import base option list gmap strings.

Set Warnings "-register-all".

Local Open Scope string_scope.
Local Open Scope list_scope.
Local Open Scope Z_scope.

(** ** Syntax tree (bxast.py) *)

Record Range : Type := mkRange {
  start : Z * Z;
  end_  : Z * Z;
}.

Record Name : Type := mkName {
  name_position : option Range;
  value : string;
}.

#[global] Instance Range_eq_dec : EqDecision Range.
Proof. solve_decision. Defined.

#[global] Instance Name_eq_dec : EqDecision Name.
Proof. solve_decision. Defined.

Inductive BasicBXType : Type :=
  | VOID | BOOL | INT | NULL
  | POINTER_INT | POINTER_BOOL | ARRAY_INT | ARRAY_BOOL.

#[global] Instance BasicBXType_eq_dec : EqDecision BasicBXType.
Proof. solve_decision. Defined.

(** [StructType.attr_lookup] is a cache derived from [attributes]; the
    checker never reads it and it is left out of the model. *)
Inductive Type_ : Type :=
  | Basic (b : BasicBXType)
  | PointerType (target : Type_)
  | ArrayType (target : Type_) (size : Z)
  | StructType (attributes : list (Name * Type_))
  | StandinType (type_name : Name).

Coercion Basic : BasicBXType >-> Type_.

(** [==] on types: enum members are equal when identical, dataclasses
    when they are of the same class with equal fields. *)
Fixpoint Type_eqb (a b : Type_) {struct a} : bool :=
  match a, b with
  | Basic x, Basic y => bool_decide (x = y)
  | PointerType t, PointerType u => Type_eqb t u
  | ArrayType t n, ArrayType u m => Type_eqb t u && bool_decide (n = m)
  | StructType xs, StructType ys =>
      (fix attrs_eqb (xs ys : list (Name * Type_)) {struct xs} : bool :=
         match xs, ys with
         | [], [] => true
         | (n, t) :: xs', (m, u) :: ys' =>
             bool_decide (n = m) && Type_eqb t u && attrs_eqb xs' ys'
         | _, _ => false
         end) xs ys
  | StandinType n, StandinType m => bool_decide (n = m)
  | _, _ => false
  end.

(** Expressions.  Every node carries [position] and the mutable [type_]
    slot of the [Expression] base class.  [Assignable] is a subclass of
    [Expression], so its variants are expression nodes as well. *)
Inductive ExprNode (E : Type) : Type :=
  | VarExpression (name : Name)
  | BoolExpression (bvalue : bool)
  | IntExpression (ivalue : Z)
  | NullExpression
  | OpAppExpression (operator : string) (arguments : list E)
  | AllocExpression (alloctype : Type_) (size : E)
  | CallExpression (proc : Name) (arguments : list E)
  | PrintExpression (argument : E)
  | DereferenceExpression (pointer_expr : E)
  | IndexExpression (array_expr index_expr : E)
  | RefExpression (argument : E)
  | VarAssignable (name : Name)
  | DerefAssignable (argument : E)
  | ArrayAssignable (argument index : E)
  | AttributeAssignable (argument : E) (attribute : string)
  | AttrPointerAssignable (argument : E) (attribute : string).

Arguments VarExpression {E} name.
Arguments BoolExpression {E} bvalue.
Arguments IntExpression {E} ivalue.
Arguments NullExpression {E}.
Arguments OpAppExpression {E} operator arguments.
Arguments AllocExpression {E} alloctype size.
Arguments CallExpression {E} proc arguments.
Arguments PrintExpression {E} argument.
Arguments DereferenceExpression {E} pointer_expr.
Arguments IndexExpression {E} array_expr index_expr.
Arguments RefExpression {E} argument.
Arguments VarAssignable {E} name.
Arguments DerefAssignable {E} argument.
Arguments ArrayAssignable {E} argument index.
Arguments AttributeAssignable {E} argument attribute.
Arguments AttrPointerAssignable {E} argument attribute.

Inductive Expression : Type :=
  | Expr (position : option Range) (type_ : option Type_)
         (node : ExprNode Expression).

Definition expr_position (e : Expression) : option Range :=
  match e with Expr p _ _ => p end.

Definition expr_type (e : Expression) : option Type_ :=
  match e with Expr _ t _ => t end.

Definition expr_node (e : Expression) : ExprNode Expression :=
  match e with Expr _ _ n => n end.

(** The target of an assignment is declared [Assignable] in bxast.py and
    read as a [Name] (through [.value] and [.position]) by the checker;
    both kinds of object can be stored in the field. *)
Inductive AssignTarget : Type :=
  | TargetName (n : Name)
  | TargetAssignable (a : Expression).

Inductive Statement : Type :=
  | VarDeclStatement (position : option Range)
      (name : Name) (init : Expression) (vtype : Type_)
  | AssignStatement (position : option Range)
      (lhs : AssignTarget) (rhs : Expression)
  | ExprStatement (position : option Range) (expression : Expression)
  | PrintStatement (position : option Range) (pvalue : Expression)
  | BlockStatement (position : option Range) (body : list Statement)
  | IfStatement (position : option Range)
      (condition : Expression) (then_ : Statement) (else_ : option Statement)
  | WhileStatement (position : option Range)
      (condition : Expression) (body : Statement)
  | BreakStatement (position : option Range)
  | ContinueStatement (position : option Range)
  | ReturnStatement (position : option Range) (expr : option Expression).

Record ProcDecl : Type := mkProcDecl {
  proc_position : option Range;
  proc_name : Name;
  proc_arguments : list (Name * Type_);
  rettype : option Type_;
  proc_body : Statement;
}.

Inductive TopDecl : Type :=
  | GlobVarDecl (position : option Range)
      (name : Name) (init : Expression) (gtype : Type_)
  | ProcDeclaration (decl : ProcDecl)
  | TypedefDecl (position : option Range)
      (alias : Name) (original_type : Type_).

Definition Block : Type := list Statement.
Definition Program : Type := list TopDecl.

(** ** Diagnostics

    A message is an f-string, kept as its literal and interpolated
    pieces in order. *)
Inductive Piece : Type :=
  | Lit (s : string)
  | PStr (s : string)
  | PInt (z : Z)
  | PNat (n : nat)
  | PType (t : Type_).

Definition Message : Type := list Piece.

Record Diagnostic : Type := mkDiagnostic {
  message : Message;
  dposition : option Range;
}.

(** [BasicBXType.__str__] *)
Definition BasicBXType_str (b : BasicBXType) : string :=
  match b with
  | VOID => "void"
  | INT => "int"
  | BOOL => "bool"
  | NULL => "null_ptr"
  | POINTER_INT => "pointer_int"
  | POINTER_BOOL => "pointer_bool"
  | ARRAY_INT => "array_int"
  | ARRAY_BOOL => "array_bool"
  end.





(** Modelled from the spec: the reporter of bxerrors.py, a sink that
    records one diagnostic per call; the diagnostics are kept in the order
    they were recorded. *)
Definition Reporter : Type := list Diagnostic.

(** Modelled from the spec: [reporter(msg, position=...)] records one
    diagnostic. *)
Definition Reporter_call (msg : Message) (position : option Range)
    (r : Reporter) : Reporter :=
  r ++ [mkDiagnostic msg position].

(** Modelled from the spec: a checkpoint of bxerrors.py remembers how many
    diagnostics the reporter held when it was opened and is true while no
    diagnostic has been recorded since. *)
Record Checkpoint : Type := mkCheckpoint { nerrors : nat }.

(** Modelled from the spec: [reporter.checkpoint()] *)
Definition Reporter_checkpoint (r : Reporter) : Checkpoint :=
  mkCheckpoint (length r).

(** Modelled from the spec: [bool(checkpoint)] *)
Definition Checkpoint_bool (c : Checkpoint) (r : Reporter) : bool :=
  bool_decide (length r = nerrors c).

(** ** Scope *)

(** Modelled from the spec: the scope of bxscope.py, a stack of frames
    from names to types, innermost frame first.  The checker opens and
    closes frames in pairs, so it never pushes into, or closes, an empty
    stack. *)
Definition Scope : Type := list (gmap string Type_).

(** Modelled from the spec: [Scope()] holds the one global frame. *)
Definition Scope_new : Scope := [∅].

(** Modelled from the spec: [open()] pushes an empty frame. *)
Definition Scope_open (sc : Scope) : Scope := ∅ :: sc.

(** Modelled from the spec: [close()] pops the innermost frame. *)
Definition Scope_close (sc : Scope) : Scope := tail sc.

(** Modelled from the spec: [push(name, type)] binds in the innermost
    frame. *)
Definition Scope_push (name : string) (t : Type_) (sc : Scope) : Scope :=
  match sc with
  | frame :: outer => <[name := t]> frame :: outer
  | [] => [ {[name := t]} ]
  end.

(** Modelled from the spec: [islocal(name)] tests the innermost frame
    only. *)
Definition Scope_islocal (name : string) (sc : Scope) : bool :=
  match sc with
  | frame :: _ => bool_decide (is_Some (frame !! name))
  | [] => false
  end.

(** Modelled from the spec: lookup searches the chain from the innermost
    frame outwards. *)
Fixpoint Scope_getitem (name : string) (sc : Scope) : option Type_ :=
  match sc with
  | [] => None
  | frame :: outer =>
      match frame !! name with
      | Some t => Some t
      | None => Scope_getitem name outer
      end
  end.

(** Modelled from the spec: membership searches the whole chain. *)
Definition Scope_contains (name : string) (sc : Scope) : bool :=
  bool_decide (is_Some (Scope_getitem name sc)).

(** ** Outcomes and the checker monad *)

Inductive Exn : Type :=
  | AssertionError
  | AttributeError
  | KeyError.

Inductive Result (S A : Type) : Type :=
  | Ok (a : A) (s : S)
  | Raise (e : Exn) (s : S).

Arguments Ok {S A} a s.
Arguments Raise {S A} e s.

Definition M (S A : Type) : Type := S -> Result S A.

Definition ret {S A} (a : A) : M S A := fun s => Ok a s.

Definition bind {S A B} (m : M S A) (k : A -> M S B) : M S B :=
  fun s => match m s with
           | Ok a s' => k a s'
           | Raise e s' => Raise e s'
           end.

Definition raise {S A} (e : Exn) : M S A := fun s => Raise e s.

Definition gets {S A} (f : S -> A) : M S A := fun s => Ok (f s) s.

Definition modify {S} (f : S -> S) : M S unit := fun s => Ok tt (f s).

(** [try: m finally: cleanup] *)
Definition try_finally {S A} (m : M S A) (cleanup : S -> S) : M S A :=
  fun s => match m s with
           | Ok a s' => Ok a (cleanup s')
           | Raise e s' => Raise e (cleanup s')
           end.

Notation "'do' x <- m ; k" := (bind m (fun x => k))
  (at level 10, x name, m at level 100, k at level 200,
   format "'[v' 'do'  x  <-  m ; '/' k ']'").
Notation "'do' ' p <- m ; k" := (bind m (fun x => match x with p => k end))
  (at level 10, p pattern, m at level 100, k at level 200).
Notation "m ;; k" := (bind m (fun _ => k))
  (at level 100, k at level 200, right associativity).

Definition state_of {S A} (r : Result S A) : S :=
  match r with Ok _ s => s | Raise _ s => s end.

(** Loops over lists of nodes, with the function applied to each node as
    a section variable so that the recursive walks below may use them on
    the children of a node. *)
Section Loops.
Context {S A : Type}.

(** [for x in xs: f(x)] *)
Section ForEach.
Variable f : A -> M S A.

Fixpoint for_each (xs : list A) : M S (list A) :=
  match xs with
  | [] => ret []
  | x :: xs' =>
      do x' <- f x;
      do xs'' <- for_each xs';
      ret (x' :: xs'')
  end.
End ForEach.

Context {T : Type}.
Variable f : A -> option T -> M S A.

(** [for atype, argument in zip(atypes, arguments): f(argument, atype)];
    [zip] stops at the shorter of the two and the arguments it does not
    reach are left as they are. *)
Fixpoint for_zip (atypes : list T) (arguments : list A) {struct arguments}
    : M S (list A) :=
  match arguments with
  | [] => ret []
  | argument :: arguments' =>
      match atypes with
      | [] => ret arguments
      | atype :: atypes' =>
          do argument' <- f argument (Some atype);
          do rest <- for_zip atypes' arguments';
          ret (argument' :: rest)
      end
  end.

(** [for i, a in enumerate(arguments):
       f(a, atypes[i] if i in range(len(atypes)) else None)],
    started at index [i]. *)
Fixpoint for_enumerate (atypes : list T) (i : nat) (arguments : list A)
    {struct arguments} : M S (list A) :=
  match arguments with
  | [] => ret []
  | a :: arguments' =>
      do a' <- f a (atypes !! i);
      do rest <- for_enumerate atypes (Datatypes.S i) arguments';
      ret (a' :: rest)
  end.
End Loops.

(** ** PreTyper *)

Abbreviation SigType := (list Type_ * Type_)%type.
Abbreviation ProcSigMap := (gmap string SigType).

Definition report_to (msg : Message) (position : option Range)
    : M Reporter unit :=
  modify (Reporter_call msg position).

Fixpoint pretype_loop (prgm : Program) (scope : Scope) (procs : ProcSigMap)
    : M Reporter (Scope * ProcSigMap) :=
  match prgm with
  | [] => ret (scope, procs)
  | topdecl :: prgm' =>
      match topdecl with
      | ProcDeclaration (mkProcDecl _ name arguments rettype _) =>
          if bool_decide (is_Some (procs !! value name)) then
            report_to [Lit "duplicated procedure name: "; PStr (value name)]
                      (name_position name) ;;
            pretype_loop prgm' scope procs
          else
            pretype_loop prgm' scope
              (<[value name :=
                   (arguments.*2,
                    match rettype with
                    | None => Basic VOID
                    | Some t => t
                    end)]> procs)
      | GlobVarDecl _ name init type_ =>
          if Scope_contains (value name) scope then
            report_to
              [Lit "duplicated global variable name: "; PStr (value name)]
              (name_position name) ;;
            pretype_loop prgm' scope procs
          else
            pretype_loop prgm' (Scope_push (value name) type_ scope) procs
      | TypedefDecl _ _ _ => raise AssertionError
      end
  end.

(** The double-quote character, for the literal that contains it. *)
Definition dquote : string := String (Ascii.ascii_of_nat 34) EmptyString.

(** [procs['main'] != ((), BasicBXType.VOID)] *)
Definition SigType_is_main (sig : SigType) : bool :=
  match sig with
  | ([], retty) => Type_eqb retty VOID
  | _ => false
  end.

Definition pretype (prgm : Program) : M Reporter (Scope * ProcSigMap) :=
  do '(scope, procs) <- pretype_loop prgm Scope_new ∅;
  match procs !! "main" with
  | None => report_to [Lit "this program is missing a main subroutine"] None
  | Some sig =>
      if SigType_is_main sig then ret tt
      else
        report_to
          [Lit dquote; Lit "main"; Lit dquote;
           Lit " should not take any argument and should not return any value"]
          None
  end ;;
  ret (scope, procs).

(** ** TypeChecker *)

Definition B : Type_ := BOOL.
Definition I : Type_ := INT.

Definition SIGS : gmap string SigType :=
  list_to_map [
    ("opposite"                 , ([I   ], I));
    ("bitwise-negation"         , ([B   ], B));
    ("boolean-not"              , ([B   ], B));
    ("addition"                 , ([I; I], I));
    ("subtraction"              , ([I; I], I));
    ("multiplication"           , ([I; I], I));
    ("division"                 , ([I; I], I));
    ("modulus"                  , ([I; I], I));
    ("logical-right-shift"      , ([I; I], I));
    ("logical-left-shift"       , ([I; I], I));
    ("bitwise-and"              , ([I; I], I));
    ("bitwise-or"               , ([I; I], I));
    ("bitwise-xor"              , ([I; I], I));
    ("boolean-and"              , ([B; B], B));
    ("boolean-or"               , ([B; B], B));
    ("cmp-equal"                , ([I; I], B));
    ("cmp-not-equal"            , ([I; I], B));
    ("cmp-lower-than"           , ([I; I], B));
    ("cmp-lower-or-equal-than"  , ([I; I], B));
    ("cmp-greater-than"         , ([I; I], B));
    ("cmp-greater-or-equal-than", ([I; I], B))
  ].

Record TypeChecker : Type := mkTypeChecker {
  scope    : Scope;
  procs    : ProcSigMap;
  loops    : Z;
  proc     : option ProcDecl;
  reporter : Reporter;
}.

(** [TypeChecker.__init__] *)
Definition TypeChecker_init (scope : Scope) (procs : ProcSigMap)
    (reporter : Reporter) : TypeChecker :=
  mkTypeChecker scope procs 0 None reporter.

Definition set_scope (f : Scope -> Scope) (tc : TypeChecker) : TypeChecker :=
  mkTypeChecker (f (scope tc)) (procs tc) (loops tc) (proc tc) (reporter tc).

Definition set_loops (f : Z -> Z) (tc : TypeChecker) : TypeChecker :=
  mkTypeChecker (scope tc) (procs tc) (f (loops tc)) (proc tc) (reporter tc).

Definition set_proc (p : option ProcDecl) (tc : TypeChecker) : TypeChecker :=
  mkTypeChecker (scope tc) (procs tc) (loops tc) p (reporter tc).

Definition set_reporter (f : Reporter -> Reporter) (tc : TypeChecker)
    : TypeChecker :=
  mkTypeChecker (scope tc) (procs tc) (loops tc) (proc tc) (f (reporter tc)).

Definition report (msg : Message) (position : option Range)
    : M TypeChecker unit :=
  modify (set_reporter (Reporter_call msg position)).

Definition in_loop {A} (m : M TypeChecker A) : M TypeChecker A :=
  modify (set_loops (fun n => n + 1)) ;;
  try_finally m (set_loops (fun n => n - 1)).

Definition in_proc {A} (decl : ProcDecl) (m : M TypeChecker A)
    : M TypeChecker A :=
  do p <- gets proc;
  match p with
  | Some _ => raise AssertionError
  | None =>
      modify (set_proc (Some decl)) ;;
      modify (set_scope Scope_open) ;;
      try_finally m (fun tc => set_scope Scope_close (set_proc None tc))
  end.

(** Modelled from the spec: [Scope.in_subscope] of bxscope.py opens a
    frame and closes it on every way out. *)
Definition in_subscope {A} (m : M TypeChecker A) : M TypeChecker A :=
  modify (set_scope Scope_open) ;;
  try_finally m (set_scope Scope_close).

Definition check_local_free (name : Name) : M TypeChecker bool :=
  do sc <- gets scope;
  if Scope_islocal (value name) sc then
    report [Lit "duplicated variable declaration for "; PStr (value name)]
           None ;;
    ret false
  else ret true.

(** [self.scope[name]]; a name that is not bound is a [KeyError]. *)
Definition scope_getitem (name : string) : M TypeChecker Type_ :=
  do sc <- gets scope;
  match Scope_getitem name sc with
  | Some t => ret t
  | None => raise KeyError
  end.

Definition check_local_bound (name : Name) : M TypeChecker (option Type_) :=
  do sc <- gets scope;
  if negb (Scope_contains (value name) sc) then
    report [Lit "missing variable declaration for "; PStr (value name)]
           (name_position name) ;;
    ret None
  else
    do t <- scope_getitem (value name);
    ret (Some t).

(** [value not in range(-(1 << 63), 1 << 63)] *)
Definition in_int64_range (value : Z) : bool :=
  bool_decide (- Z.shiftl 1 63 <= value < Z.shiftl 1 63).

Definition check_integer_constant_range (value : Z) : M TypeChecker bool :=
  if negb (in_int64_range value) then
    report [Lit "integer literal out of range: "; PInt value] None ;;
    ret false
  else ret true.

(** [x in (t1, ..., tn)] on types *)
Definition Type_in (t : option Type_) (ts : list Type_) : bool :=
  match t with
  | Some t => existsb (Type_eqb t) ts
  | None => false
  end.

(** The comparison with the expected type on which [for_expression] ends,
    just before it writes the node's type slot. *)
Definition check_expected (position : option Range)
    (type_ etype : option Type_) : M TypeChecker unit :=
  match type_, etype with
  | Some t, Some et =>
      if negb (Type_eqb t et) then
        report [Lit "invalid type: get "; PType t;
                Lit ", expected "; PType et] position
      else ret tt
  | _, _ => ret tt
  end.

Fixpoint for_expression (expr : Expression) (etype : option Type_)
    {struct expr} : M TypeChecker Expression :=
  match expr with
  | Expr position _ node =>
      do '(type_, node') <-
        match node with
        | VarExpression name =>
            do bound <- check_local_bound name;
            (* [if self.check_local_bound(name):] a type is truthy *)
            match bound with
            | Some _ =>
                do t <- scope_getitem (value name);
                ret (Some t, node)
            | None => ret (None, node)
            end
        | BoolExpression _ =>
            ret (Some (Basic BOOL), node)
        | IntExpression value =>
            check_integer_constant_range value ;;
            ret (Some (Basic INT), node)
        | OpAppExpression opname arguments =>
            match SIGS !! opname with
            | None => raise KeyError
            | Some opsig =>
                do arguments' <- for_zip for_expression opsig.1 arguments;
                ret (Some opsig.2, OpAppExpression opname arguments')
            end
        | CallExpression name arguments =>
            do ps <- gets procs;
            do '(atypes, retty) <-
              match ps !! value name with
              | None =>
                  report [Lit "unknown procedure: "; PStr (value name)]
                         (name_position name) ;;
                  ret ([], None)
              | Some (atypes, retty) =>
                  (if negb (bool_decide (length atypes = length arguments))
                   then
                     report [Lit "invalid number of arguments: expected ";
                             PNat (length atypes); Lit ", got ";
                             PNat (length arguments)] position
                   else ret tt) ;;
                  ret (atypes, Some retty)
              end;
            do arguments' <- for_enumerate for_expression atypes 0 arguments;
            ret (retty, CallExpression name arguments')
        | PrintExpression e =>
            do e' <- for_expression e None;
            match expr_type e' with
            | Some t =>
                if negb (Type_in (Some t) [Basic INT; Basic BOOL]) then
                  report [Lit "can only print integers and booleans, not ";
                          PType t] (expr_position e')
                else ret tt
            | None => ret tt
            end ;;
            ret (Some (Basic VOID), PrintExpression e')
        | AllocExpression element_type size_expr =>
            (* The argument [etype=Type.INT] is evaluated before the call:
               [Type] is the empty base class of bxast.py, the members
               [INT], [POINTER_INT], ... belong to [BasicBXType]. *)
            raise AttributeError
        | DereferenceExpression pointer_expr =>
            do pointer_expr' <- for_expression pointer_expr None;
            (* [[Type.POINTER_INT, Type.POINTER_BOOL]] *)
            raise AttributeError
        | IndexExpression array_expr index_expr =>
            do array_expr' <- for_expression array_expr None;
            (* [etype=Type.INT], before [index_expr] is checked *)
            raise AttributeError
        | _ =>
            (* [case _: print(expr); assert(False)] *)
            raise AssertionError
        end;
      check_expected position type_ etype ;;
      ret (Expr position type_ node')
  end.

Definition check_constant (expr : Expression) : bool :=
  match expr_node expr with
  | IntExpression _ => true
  | _ => false
  end.

(** [has_return(None)], reached through an absent else branch, falls in
    the catch-all case. *)
Fixpoint has_return (stmt : Statement) {struct stmt} : bool :=
  match stmt with
  | ReturnStatement _ _ => true
  | IfStatement _ _ iftrue iffalse =>
      has_return iftrue &&
      match iffalse with
      | Some iffalse => has_return iffalse
      | None => false
      end
  | BlockStatement _ block => existsb has_return block
  | _ => false
  end.

Fixpoint for_statement (stmt : Statement) {struct stmt}
    : M TypeChecker Statement :=
  match stmt with
  | VarDeclStatement position name init type_ =>
      do free <- check_local_free name;
      (if free then modify (set_scope (Scope_push (value name) type_))
       else ret tt) ;;
      do init' <- for_expression init (Some type_);
      ret (VarDeclStatement position name init' type_)
  | AssignStatement position lhs rhs =>
      do lhstype <-
        match lhs with
        | TargetName name => check_local_bound name
        | TargetAssignable _ =>
            (* [name.value]: no assignable has a field [value] *)
            raise AttributeError
        end;
      do rhs' <- for_expression rhs lhstype;
      ret (AssignStatement position lhs rhs')
  | ExprStatement position expression =>
      do expression' <- for_expression expression None;
      ret (ExprStatement position expression')
  | BlockStatement position block =>
      (* [self.for_block(block)] *)
      do block' <- in_subscope (for_each for_statement block);
      ret (BlockStatement position block')
  | IfStatement position condition iftrue iffalse =>
      do condition' <- for_expression condition (Some (Basic BOOL));
      do iftrue' <- for_statement iftrue;
      do iffalse' <-
        match iffalse with
        | Some iffalse =>
            do iffalse' <- for_statement iffalse;
            ret (Some iffalse')
        | None => ret None
        end;
      ret (IfStatement position condition' iftrue' iffalse')
  | WhileStatement position condition body =>
      do condition' <- for_expression condition (Some (Basic BOOL));
      do body' <- in_loop (for_statement body);
      ret (WhileStatement position condition' body')
  | BreakStatement position | ContinueStatement position =>
      do n <- gets loops;
      (if bool_decide (n = 0) then
         report [Lit "break/continue statement outside of a loop"] position
       else ret tt) ;;
      ret stmt
  | PrintStatement position init =>
      do init' <- for_expression init (Some (Basic INT));
      ret (PrintStatement position init')
  | ReturnStatement position e =>
      do p <- gets proc;
      match p with
      | None => raise AttributeError
      | Some p =>
          match e with
          | None =>
              (if bool_decide (is_Some (rettype p)) then
                 report [Lit "value-less return statement in a function"]
                        position
               else ret tt) ;;
              (* [self.proc.retty]: a [ProcDecl] has no attribute [retty] *)
              raise AttributeError
          | Some _ =>
              (if bool_decide (rettype p = None) then
                 report [Lit "return statement in a subroutine"] position
               else ret tt) ;;
              ret stmt
          end
      end
  end.

(** [for_block], which [for_statement] calls on the body of a block. *)
Definition for_block (block : Block) : M TypeChecker Block :=
  in_subscope (for_each for_statement block).

(** The loop of [for_topdecl] over the parameters of a procedure. *)
Fixpoint for_parameters (arguments : list (Name * Type_))
    : M TypeChecker unit :=
  match arguments with
  | [] => ret tt
  | (vname, vtype_) :: arguments' =>
      do free <- check_local_free vname;
      (if free then modify (set_scope (Scope_push (value vname) vtype_))
       else ret tt) ;;
      for_parameters arguments'
  end.

Definition for_topdecl (decl : TopDecl) : M TypeChecker TopDecl :=
  match decl with
  | ProcDeclaration (mkProcDecl position name arguments retty body as pdecl) =>
      in_proc pdecl (
        for_parameters arguments ;;
        do body' <- for_statement body;
        match retty with
        | Some _ =>
            if negb (has_return body') then
              report [Lit "this function is missing a return statement"]
                     position
            else ret tt
        | None => ret tt
        end ;;
        ret (ProcDeclaration (mkProcDecl position name arguments retty body')))
  | GlobVarDecl position name init type_ =>
      do init' <- for_expression init (Some type_);
      (if negb (check_constant init') then
         report [Lit "this expression is not a literal"]
                (expr_position init')
       else ret tt) ;;
      ret (GlobVarDecl position name init' type_)
  | TypedefDecl _ _ _ => ret decl
  end.

Definition for_program (prgm : Program) : M TypeChecker Program :=
  for_each for_topdecl prgm.

Definition TypeChecker_check (prgm : Program) : M TypeChecker Program :=
  for_program prgm.

(** ** The driver

    [check] returns the boolean of the Python function; the annotated
    program, which Python leaves in the tree it was given, is the result
    of [check_program]. *)
Definition check_program (prgm : Program) : M Reporter (bool * Program) :=
  fun r =>
    let checkpoint := Reporter_checkpoint r in
    match pretype prgm r with
    | Raise e r' => Raise e r'
    | Ok (scope, procs) r' =>
        match TypeChecker_check prgm (TypeChecker_init scope procs r') with
        | Raise e tc => Raise e (reporter tc)
        | Ok prgm' tc =>
            Ok (Checkpoint_bool checkpoint (reporter tc), prgm') (reporter tc)
        end
    end.

Definition check (prgm : Program) : M Reporter bool :=
  do r <- check_program prgm;
  ret r.1.

(** ** What a step adds to the reporter *)

Definition add_diagnostics (ds : list Diagnostic) (tc : TypeChecker)
    : TypeChecker :=
  set_reporter (fun r => r ++ ds) tc.

(** The diagnostic of the comparison that ends [for_expression], if any. *)
Definition mismatch_diagnostics (position : option Range)
    (type_ etype : option Type_) : list Diagnostic :=
  match type_, etype with
  | Some t, Some et =>
      if Type_eqb t et then []
      else [mkDiagnostic [Lit "invalid type: get "; PType t;
                          Lit ", expected "; PType et] position]
  | _, _ => []
  end.

(** ** Induction over the nested trees *)

Section Type_induction.
Variable P : Type_ -> Prop.
Hypothesis HBasic : forall b, P (Basic b).
Hypothesis HPointer : forall t, P t -> P (PointerType t).
Hypothesis HArray : forall t n, P t -> P (ArrayType t n).
Hypothesis HStruct :
  forall attrs, Forall (fun a => P a.2) attrs -> P (StructType attrs).
Hypothesis HStandin : forall n, P (StandinType n).

Fixpoint Type_nested_ind (t : Type_) : P t :=
  match t with
  | Basic b => HBasic b
  | PointerType t => HPointer t (Type_nested_ind t)
  | ArrayType t n => HArray t n (Type_nested_ind t)
  | StructType attrs =>
      HStruct attrs
        ((fix go (l : list (Name * Type_)) : Forall (fun a => P a.2) l :=
            match l with
            | [] => List.Forall_nil _
            | (n, t) :: l' =>
                List.Forall_cons _ (n, t) l' (Type_nested_ind t) (go l')
            end) attrs)
  | StandinType n => HStandin n
  end.
End Type_induction.

(** The sub-expressions of a node, in the order of its fields. *)
Definition children {E} (node : ExprNode E) : list E :=
  match node with
  | OpAppExpression _ arguments | CallExpression _ arguments => arguments
  | AllocExpression _ e | PrintExpression e | DereferenceExpression e
  | RefExpression e | DerefAssignable e
  | AttributeAssignable e _ | AttrPointerAssignable e _ => [e]
  | IndexExpression a i | ArrayAssignable a i => [a; i]
  | _ => []
  end.

Section Expression_induction.
Variable P : Expression -> Prop.
Hypothesis HExpr :
  forall position type_ node,
    Forall P (children node) -> P (Expr position type_ node).

Fixpoint Expression_nested_ind (e : Expression) : P e :=
  match e with
  | Expr position type_ node =>
      let all :=
        fix all (l : list Expression) : Forall P l :=
          match l with
          | [] => List.Forall_nil _
          | x :: l' => List.Forall_cons _ x l' (Expression_nested_ind x) (all l')
          end in
      let one x := List.Forall_cons _ x [] (Expression_nested_ind x)
                     (List.Forall_nil _) in
      let two x y := List.Forall_cons _ x [y] (Expression_nested_ind x)
                       (one y) in
      HExpr position type_ node
        (match node return Forall P (children node) with
         | OpAppExpression _ arguments | CallExpression _ arguments =>
             all arguments
         | AllocExpression _ e | PrintExpression e
         | DereferenceExpression e | RefExpression e | DerefAssignable e
         | AttributeAssignable e _ | AttrPointerAssignable e _ => one e
         | IndexExpression a i | ArrayAssignable a i => two a i
         | _ => List.Forall_nil _
         end)
  end.
End Expression_induction.

Section Statement_induction.
Variable P : Statement -> Prop.
Hypothesis HVarDecl : forall p n i t, P (VarDeclStatement p n i t).
Hypothesis HAssign : forall p l r, P (AssignStatement p l r).
Hypothesis HExprS : forall p e, P (ExprStatement p e).
Hypothesis HPrint : forall p e, P (PrintStatement p e).
Hypothesis HBlock : forall p block, Forall P block -> P (BlockStatement p block).
Hypothesis HIf :
  forall p c iftrue iffalse,
    P iftrue -> (forall s, iffalse = Some s -> P s) ->
    P (IfStatement p c iftrue iffalse).
Hypothesis HWhile : forall p c body, P body -> P (WhileStatement p c body).
Hypothesis HBreak : forall p, P (BreakStatement p).
Hypothesis HContinue : forall p, P (ContinueStatement p).
Hypothesis HReturn : forall p e, P (ReturnStatement p e).

Fixpoint Statement_nested_ind (s : Statement) : P s :=
  match s with
  | VarDeclStatement p n i t => HVarDecl p n i t
  | AssignStatement p l r => HAssign p l r
  | ExprStatement p e => HExprS p e
  | PrintStatement p e => HPrint p e
  | BlockStatement p block =>
      HBlock p block
        ((fix all (l : list Statement) : Forall P l :=
            match l with
            | [] => List.Forall_nil _
            | x :: l' => List.Forall_cons _ x l' (Statement_nested_ind x) (all l')
            end) block)
  | IfStatement p c iftrue iffalse =>
      HIf p c iftrue iffalse (Statement_nested_ind iftrue)
        (match iffalse
               return forall s, iffalse = Some s -> P s with
         | Some s' =>
             fun s H =>
               eq_ind s' P (Statement_nested_ind s') s
                 (f_equal (default s') H)
         | None => fun s H => match Some_ne_None _ (eq_sym H) with end
         end)
  | WhileStatement p c body => HWhile p c body (Statement_nested_ind body)
  | BreakStatement p => HBreak p
  | ContinueStatement p => HContinue p
  | ReturnStatement p e => HReturn p e
  end.
End Statement_induction.

(** ** Sample programs *)

Module Samples.
Definition name (s : string) : Name := mkName None s.

(** A node as the parser leaves it: no position, type slot unset. *)
Definition expr (node : ExprNode Expression) : Expression :=
  Expr None None node.

Definition procedure (n : string) (arguments : list (Name * Type_))
    (retty : option Type_) (body : list Statement) : TopDecl :=
  ProcDeclaration
    (mkProcDecl None (name n) arguments retty (BlockStatement None body)).

(** [proc main() { }] *)
Definition empty_main : Program := [procedure "main" [] None []].

(** [proc main() { return; }] *)
Definition main_returns : Program :=
  [procedure "main" [] None [ReturnStatement None None]].

(** [proc main() { null; }], a null literal used as a statement *)
Definition main_null : Program :=
  [procedure "main" [] None [ExprStatement None (expr NullExpression)]].

(** [proc main() { }  proc f() : int { return true; }] *)
Definition returns_bool_as_int : Program :=
  [procedure "main" [] None [];
   procedure "f" [] (Some (Basic INT))
     [ReturnStatement None (Some (expr (BoolExpression true)))]].

(** [proc main() { f(1); }  proc f(a : int, b : int) { }] *)
Definition call_with_one_argument : Program :=
  [procedure "main" [] None
     [ExprStatement None
        (expr (CallExpression (name "f") [expr (IntExpression 1)]))];
   procedure "f" [(name "a", Basic INT); (name "b", Basic INT)] None []].

(** [proc main() { }  proc f() : int { }] *)
Definition function_without_return : ProcDecl :=
  mkProcDecl None (name "f") [] (Some (Basic INT)) (BlockStatement None []).

(** A checker at the start of a pass over an empty program. *)
Definition fresh : TypeChecker := TypeChecker_init Scope_new ∅ [].
End Samples.

(** ** Vocabulary of the further properties *)

(** The signature that [PreTyper.pretype] stores for a procedure. *)
Definition signature_of (decl : ProcDecl) : SigType :=
  ((proc_arguments decl).*2,
   match rettype decl with
   | None => Basic VOID
   | Some t => t
   end).

(** The first procedure of a program that bears a name. *)
Fixpoint first_procedure (n : string) (prgm : Program) : option ProcDecl :=
  match prgm with
  | [] => None
  | ProcDeclaration decl :: prgm' =>
      if decide (value (proc_name decl) = n) then Some decl
      else first_procedure n prgm'
  | _ :: prgm' => first_procedure n prgm'
  end.

(** The declared type of the first global variable of a program that
    bears a name. *)
Fixpoint first_global (n : string) (prgm : Program) : option Type_ :=
  match prgm with
  | [] => None
  | GlobVarDecl _ name _ gtype :: prgm' =>
      if decide (value name = n) then Some gtype
      else first_global n prgm'
  | _ :: prgm' => first_global n prgm'
  end.

Definition is_typedef (decl : TopDecl) : bool :=
  match decl with
  | TypedefDecl _ _ _ => true
  | _ => false
  end.

(** A computation keeps a relation when the state it leaves, returning or
    raising, is related to the state it started from. *)
Definition keeps {S A} (R : S -> S -> Prop) (m : M S A) : Prop :=
  forall s, R s (state_of (m s)).

(** Everything of the checker but its reporter. *)
Definition same_context (tc tc' : TypeChecker) : Prop :=
  scope tc' = scope tc /\ procs tc' = procs tc /\
  loops tc' = loops tc /\ proc tc' = proc tc.

(** The same, the innermost frame of the scope left free. *)
Definition same_outer (tc tc' : TypeChecker) : Prop :=
  tail (scope tc') = tail (scope tc) /\ procs tc' = procs tc /\
  loops tc' = loops tc /\ proc tc' = proc tc.

(** [all(f(a) for _, a in zip(atypes, arguments))] *)
Section ForallZip.
Context {A T : Type} (f : A -> bool).

Fixpoint forallb_zip (atypes : list T) (arguments : list A)
    {struct arguments} : bool :=
  match arguments with
  | [] => true
  | a :: arguments' =>
      match atypes with
      | [] => true
      | _ :: atypes' => f a && forallb_zip atypes' arguments'
      end
  end.
End ForallZip.

(** The expressions whose check comes to its end: variables, literals,
    applications of the operators of [SIGS] (as far as [zip] reaches into
    their arguments), calls and prints, built from such expressions. *)
Fixpoint completes_expression (expr : Expression) : bool :=
  match expr with
  | Expr _ _ node =>
      match node with
      | VarExpression _ | BoolExpression _ | IntExpression _ => true
      | OpAppExpression opname arguments =>
          match SIGS !! opname with
          | Some opsig => forallb_zip completes_expression opsig.1 arguments
          | None => false
          end
      | CallExpression _ arguments => forallb completes_expression arguments
      | PrintExpression e => completes_expression e
      | _ => false
      end
  end.

(** The statements whose check comes to its end inside a procedure: no
    return without a value, no assignment to an [Assignable], and every
    expression that is checked completes.  The value of a return is not
    checked. *)
Fixpoint completes_statement (stmt : Statement) : bool :=
  match stmt with
  | VarDeclStatement _ _ init _ => completes_expression init
  | AssignStatement _ lhs rhs =>
      match lhs with
      | TargetName _ => completes_expression rhs
      | TargetAssignable _ => false
      end
  | ExprStatement _ e | PrintStatement _ e => completes_expression e
  | BlockStatement _ block => forallb completes_statement block
  | IfStatement _ condition iftrue iffalse =>
      completes_expression condition && completes_statement iftrue &&
      match iffalse with
      | Some iffalse => completes_statement iffalse
      | None => true
      end
  | WhileStatement _ condition body =>
      completes_expression condition && completes_statement body
  | BreakStatement _ | ContinueStatement _ => true
  | ReturnStatement _ e => bool_decide (is_Some e)
  end.

Definition completes_topdecl (decl : TopDecl) : bool :=
  match decl with
  | GlobVarDecl _ _ init _ => completes_expression init
  | ProcDeclaration decl => completes_statement (proc_body decl)
  | TypedefDecl _ _ _ => true
  end.

(** A computation returns from a state when it does not raise. *)
Definition returns {S A} (m : M S A) (s : S) : Prop :=
  exists a s', m s = Ok a s'.

(** The message of a [break] or [continue] outside of a loop. *)
Definition break_message : Message :=
  [Lit "break/continue statement outside of a loop"].

(** From a state inside a loop, nothing that is recorded is the message of
    a misplaced [break]; the loop counter is as it was. *)
Definition quiet_in_loop (tc tc' : TypeChecker) : Prop :=
  loops tc' = loops tc /\
  exists ds, reporter tc' = reporter tc ++ ds /\
             (0 < loops tc -> Forall (fun d => message d <> break_message) ds).

(** The type of the first parameter of a list that bears a name. *)
Fixpoint first_parameter (n : string) (arguments : list (Name * Type_))
    : option Type_ :=
  match arguments with
  | [] => None
  | (vname, vtype_) :: arguments' =>
      if decide (value vname = n) then Some vtype_
      else first_parameter n arguments'
  end.

(** How many of the parameters bear a name that the frame or an earlier
    parameter binds already. *)
Fixpoint duplicate_parameters (frame : gmap string Type_)
    (arguments : list (Name * Type_)) : list Name :=
  match arguments with
  | [] => []
  | (vname, vtype_) :: arguments' =>
      match frame !! value vname with
      | Some _ => vname :: duplicate_parameters frame arguments'
      | None =>
          duplicate_parameters (<[value vname := vtype_]> frame) arguments'
      end
  end.

(** Nothing that is recorded is the message of a misplaced [break]. *)
Definition never_break (tc tc' : TypeChecker) : Prop :=
  exists ds, reporter tc' = reporter tc ++ ds /\
             Forall (fun d => message d <> break_message) ds.

(** * Properties *)

(** ** Equality of types *)

Lemma Type_eqb_eq (a b : Type_) : Type_eqb a b = true <-> a = b.
Proof.
  revert b. induction a using Type_nested_ind; intros b'; destruct b';
    simpl; try (split; [discriminate | congruence]).
  - rewrite bool_decide_eq_true. split; congruence.
  - rewrite IHa. split; congruence.
  - rewrite andb_true_iff, bool_decide_eq_true, IHa. split.
    + intros [-> ->]. reflexivity.
    + intros [= -> ->]. auto.
  - transitivity (attrs = attributes); [| split; congruence].
    revert attributes. induction H as [| [n t] l Ht _ IH];
      intros [| [m u] ys]; try (split; [discriminate | congruence]);
      [tauto |].
    rewrite !andb_true_iff, bool_decide_eq_true. simpl in Ht.
    rewrite Ht, IH. split.
    + intros [[-> ->] ->]. reflexivity.
    + intros [= -> -> ->]. auto.
  - rewrite bool_decide_eq_true. split; congruence.
Qed.

Lemma Type_eqb_refl (a : Type_) : Type_eqb a a = true.
Proof. now apply Type_eqb_eq. Qed.

Lemma Type_eqb_neq (a b : Type_) : Type_eqb a b = false <-> a <> b.
Proof.
  rewrite <- Type_eqb_eq. destruct (Type_eqb a b); split; congruence.
Qed.

(** ** The checker monad *)

Lemma bind_Ok_inv {S A B} (m : M S A) (k : A -> M S B) s b s' :
  bind m k s = Ok b s' ->
  exists a s1, m s = Ok a s1 /\ k a s1 = Ok b s'.
Proof.
  unfold bind. destruct (m s) as [a s1 | e s1]; [eauto | discriminate].
Qed.

Lemma try_finally_Ok_inv {S A} (m : M S A) (cleanup : S -> S) s a s' :
  try_finally m cleanup s = Ok a s' ->
  exists s1, m s = Ok a s1 /\ s' = cleanup s1.
Proof.
  unfold try_finally. destruct (m s) as [a1 s1 | e s1]; [| discriminate].
  intros [= -> <-]. eauto.
Qed.


(** ** The reporter only grows

    Whatever a computation does, and whether it returns or raises, the
    diagnostics it leaves are those it started from followed by the ones
    it recorded. *)
Section Grows.
Context {S : Type} (rep : S -> Reporter).

Definition extends (s s' : S) : Prop := exists ds, rep s' = rep s ++ ds.

Definition grows {A} (m : M S A) : Prop :=
  forall s, extends s (state_of (m s)).

Lemma extends_refl s : extends s s.
Proof. exists []. now rewrite app_nil_r. Qed.

Lemma extends_trans s1 s2 s3 : extends s1 s2 -> extends s2 s3 -> extends s1 s3.
Proof.
  intros [d1 H1] [d2 H2]. exists (d1 ++ d2).
  now rewrite H2, H1, app_assoc.
Qed.

Lemma grows_ret {A} (a : A) : grows (ret a).
Proof. intros s. apply extends_refl. Qed.

Lemma grows_raise {A} e : grows (@raise S A e).
Proof. intros s. apply extends_refl. Qed.

Lemma grows_gets {A} (f : S -> A) : grows (gets f).
Proof. intros s. apply extends_refl. Qed.

Lemma grows_modify (f : S -> S) :
  (forall s, extends s (f s)) -> grows (modify f).
Proof. intros H s. apply H. Qed.

Lemma grows_bind {A B} (m : M S A) (k : A -> M S B) :
  grows m -> (forall a, grows (k a)) -> grows (bind m k).
Proof.
  intros Hm Hk s. specialize (Hm s). unfold bind.
  destruct (m s) as [a s1 | e s1]; simpl in *; [| assumption].
  eapply extends_trans; [exact Hm | apply Hk].
Qed.

Lemma grows_try_finally {A} (m : M S A) (cleanup : S -> S) :
  grows m -> (forall s, extends s (cleanup s)) -> grows (try_finally m cleanup).
Proof.
  intros Hm Hc s. specialize (Hm s). unfold try_finally.
  destruct (m s) as [a s1 | e s1]; simpl in *;
    (eapply extends_trans; [exact Hm | apply Hc]).
Qed.

Lemma grows_for_each {A} (f : A -> M S A) xs :
  Forall (fun x => grows (f x)) xs -> grows (for_each f xs).
Proof.
  induction 1 as [| x xs Hx _ IH]; simpl.
  - apply grows_ret.
  - apply grows_bind; [exact Hx |]. intros x'.
    apply grows_bind; [exact IH |]. intros xs'. apply grows_ret.
Qed.

Lemma grows_for_zip {A T} (f : A -> option T -> M S A) atypes arguments :
  Forall (fun a => forall et, grows (f a et)) arguments ->
  grows (for_zip f atypes arguments).
Proof.
  intros H. revert atypes.
  induction H as [| a arguments Ha _ IH]; intros [| atype atypes]; simpl;
    try apply grows_ret.
  apply grows_bind; [apply Ha |]. intros a'.
  apply grows_bind; [apply IH |]. intros rest. apply grows_ret.
Qed.

Lemma grows_for_enumerate {A T} (f : A -> option T -> M S A)
    atypes i arguments :
  Forall (fun a => forall et, grows (f a et)) arguments ->
  grows (for_enumerate f atypes i arguments).
Proof.
  intros H. revert i.
  induction H as [| a arguments Ha _ IH]; intros i; simpl;
    try apply grows_ret.
  apply grows_bind; [apply Ha |]. intros a'.
  apply grows_bind; [apply IH |]. intros rest. apply grows_ret.
Qed.
End Grows.

Lemma extends_set_scope f tc : extends reporter tc (set_scope f tc).
Proof. exists []. simpl. now rewrite app_nil_r. Qed.

Lemma extends_set_loops f tc : extends reporter tc (set_loops f tc).
Proof. exists []. simpl. now rewrite app_nil_r. Qed.

Lemma extends_set_proc p tc : extends reporter tc (set_proc p tc).
Proof. exists []. simpl. now rewrite app_nil_r. Qed.

Lemma extends_report msg position tc :
  extends reporter tc (set_reporter (Reporter_call msg position) tc).
Proof. eexists. reflexivity. Qed.

Lemma grows_report msg position : grows reporter (report msg position).
Proof. apply grows_modify. intros tc. apply extends_report. Qed.

Create HintDb grows discriminated.

#[local] Hint Resolve grows_ret grows_raise grows_gets grows_report
  extends_set_scope extends_set_loops extends_set_proc extends_report
  : grows.

(** Walks through a computation built from the monad's operations: one
    step per bind, one case per branch. *)
Ltac grows_step :=
  match goal with
  | |- grows _ (bind _ _) => apply grows_bind; [| intros ?]
  | |- grows _ (modify _) => apply grows_modify; intros ?
  | |- grows _ (try_finally _ _) => apply grows_try_finally; [| intros ?]
  | |- grows _ (match ?x with _ => _ end) =>
      first [is_var x; destruct x
            | let y := fresh in generalize x; intros y; destruct y]
  | |- extends _ _ (set_scope _ (set_proc _ _)) =>
      eapply extends_trans; [apply extends_set_proc | apply extends_set_scope]
  | |- _ => solve [auto with grows]
  end.

Ltac grows_auto := repeat grows_step.

Lemma grows_check_local_free name : grows reporter (check_local_free name).
Proof. unfold check_local_free. grows_auto. Qed.

Lemma grows_scope_getitem name : grows reporter (scope_getitem name).
Proof. unfold scope_getitem. grows_auto. Qed.

Lemma grows_check_local_bound name : grows reporter (check_local_bound name).
Proof.
  unfold check_local_bound. pose proof grows_scope_getitem. grows_auto.
Qed.

Lemma grows_check_integer_constant_range v :
  grows reporter (check_integer_constant_range v).
Proof. unfold check_integer_constant_range. grows_auto. Qed.

Lemma grows_check_expected position type_ etype :
  grows reporter (check_expected position type_ etype).
Proof. unfold check_expected. grows_auto. Qed.

#[local] Hint Resolve grows_check_local_free grows_scope_getitem
  grows_check_local_bound grows_check_integer_constant_range
  grows_check_expected : grows.

Lemma grows_for_expression expr :
  forall etype, grows reporter (for_expression expr etype).
Proof.
  induction expr as [position type_ node IH] using Expression_nested_ind.
  intros etype.
  pose proof (@grows_for_zip _ reporter Expression Type_ for_expression).
  pose proof (@grows_for_enumerate _ reporter Expression Type_ for_expression).
  destruct node; cbn [for_expression children] in *;
    repeat match goal with
           | H : Forall _ (_ :: _) |- _ => apply Forall_cons in H as [? ?]
           end;
    timeout 20 grows_auto.
Qed.

#[local] Hint Resolve grows_for_expression : grows.

Lemma grows_in_subscope {A} (m : M TypeChecker A) :
  grows reporter m -> grows reporter (in_subscope m).
Proof. intros H. unfold in_subscope. grows_auto. Qed.

Lemma grows_in_loop {A} (m : M TypeChecker A) :
  grows reporter m -> grows reporter (in_loop m).
Proof. intros H. unfold in_loop. grows_auto. Qed.

Lemma grows_in_proc {A} decl (m : M TypeChecker A) :
  grows reporter m -> grows reporter (in_proc decl m).
Proof. intros H. unfold in_proc. grows_auto. Qed.

Lemma grows_for_statement stmt : grows reporter (for_statement stmt).
Proof.
  induction stmt using Statement_nested_ind; cbn [for_statement];
    repeat first
      [ apply grows_in_subscope | apply grows_in_loop
      | apply grows_for_each; assumption
      | assumption
      | match goal with
        | IH : forall s, ?o = Some s -> _ |- grows _ (for_statement ?s') =>
            apply IH; reflexivity
        end
      | grows_step ].
Qed.

Lemma grows_for_parameters arguments : grows reporter (for_parameters arguments).
Proof.
  induction arguments as [| [vname vtype_] arguments IH]; simpl; grows_auto.
Qed.

Lemma grows_for_topdecl decl : grows reporter (for_topdecl decl).
Proof.
  pose proof grows_for_statement. pose proof grows_for_parameters.
  destruct decl as [| [] |]; cbn [for_topdecl]; [grows_auto | | grows_auto].
  apply grows_in_proc. grows_auto.
Qed.

Lemma grows_for_program prgm : grows reporter (for_program prgm).
Proof.
  apply grows_for_each, Forall_forall. intros. apply grows_for_topdecl.
Qed.

Lemma grows_report_to msg position : grows id (report_to msg position).
Proof. apply grows_modify. intros r. eexists. reflexivity. Qed.

Lemma grows_pretype_loop prgm scope procs :
  grows id (pretype_loop prgm scope procs).
Proof.
  pose proof grows_report_to.
  revert scope procs.
  induction prgm as [| topdecl prgm IH]; intros; cbn [pretype_loop];
    [apply grows_ret |].
  destruct topdecl as [| [] |]; grows_auto; auto using grows_raise.
Qed.

Lemma grows_pretype prgm : grows id (pretype prgm).
Proof.
  pose proof grows_report_to. pose proof grows_pretype_loop.
  unfold pretype. grows_auto; auto using grows_ret.
Qed.

(** ** Checking keeps the shape of a statement *)

Lemma in_subscope_Ok_inv {A} (m : M TypeChecker A) tc a tc' :
  in_subscope m tc = Ok a tc' ->
  exists tc1, m (set_scope Scope_open tc) = Ok a tc1.
Proof.
  unfold in_subscope. intros H.
  apply bind_Ok_inv in H as (? & ? & [= _ <-] & H).
  apply try_finally_Ok_inv in H as (tc1 & H & _). eauto.
Qed.

Lemma in_loop_Ok_inv {A} (m : M TypeChecker A) tc a tc' :
  in_loop m tc = Ok a tc' ->
  exists tc0 tc1, m tc0 = Ok a tc1.
Proof.
  unfold in_loop. intros H.
  apply bind_Ok_inv in H as (? & ? & _ & H).
  apply try_finally_Ok_inv in H as (tc1 & H & _). eauto.
Qed.

(** Takes a completed run apart, bind by bind. *)
Ltac ok_inv :=
  repeat match goal with
         | H : bind _ _ _ = Ok _ _ |- _ =>
             apply bind_Ok_inv in H as (? & ? & ? & H)
         | H : ret _ _ = Ok _ _ |- _ => inversion H; subst; clear H
         | H : raise _ _ = Ok _ _ |- _ => discriminate H
         | H : gets _ _ = Ok _ _ |- _ => inversion H; subst; clear H
         | H : modify _ _ = Ok _ _ |- _ => inversion H; subst; clear H
         | H : in_subscope _ _ = Ok _ _ |- _ =>
             apply in_subscope_Ok_inv in H as (? & H)
         | H : in_loop _ _ = Ok _ _ |- _ =>
             apply in_loop_Ok_inv in H as (? & ? & H)
         end.


(** ** The driver *)

(** [check] runs the PreTyper and then the TypeChecker on the reporter
    it was given, inside one checkpoint; on the runs that return, the
    reporter holds the diagnostics it held before, then those of the
    PreTyper, then those of the TypeChecker, and the result is [true] exactly
    when both passes recorded none, whatever the rules that recorded them.
    The runs that raise return nothing: see [check_silent_without_result]
    below. *)
Theorem check_true_iff_no_diagnostic prgm r b r' :
  check prgm r = Ok b r' ->
  exists scope procs r1 prgm' tc d1 d2,
    pretype prgm r = Ok (scope, procs) r1 /\
    TypeChecker_check prgm (TypeChecker_init scope procs r1) = Ok prgm' tc /\
    r1 = r ++ d1 /\
    reporter tc = r1 ++ d2 /\
    r' = r ++ d1 ++ d2 /\
    (b = true <-> d1 ++ d2 = []).
Proof.
  unfold check, check_program, bind, ret. intros Hrun.
  pose proof (grows_pretype prgm r) as [d1 H1].
  destruct (pretype prgm r) as [[scope procs] r1 | e r1]; [| discriminate].
  simpl in H1.
  pose proof (grows_for_program prgm (TypeChecker_init scope procs r1))
    as [d2 H2].
  unfold TypeChecker_check in *.
  destruct (for_program prgm _) as [prgm' tc | e tc] eqn:Hfp; [| discriminate].
  simpl in H2. injection Hrun as <- <-.
  exists scope, procs, r1, prgm', tc, d1, d2.
  repeat split; try assumption.
  - now rewrite H2, H1, app_assoc.
  - unfold Checkpoint_bool, Reporter_checkpoint. simpl.
    rewrite bool_decide_eq_true, H2, H1, <- app_assoc, length_app.
    intros Hlen. apply length_zero_iff_nil. lia.
  - unfold Checkpoint_bool, Reporter_checkpoint. simpl.
    rewrite bool_decide_eq_true, H2, H1, <- app_assoc, length_app.
    intros ->. simpl. lia.
Qed.

Lemma check_true_iff_no_diagnostic_witness :
  exists scope procs r1 prgm' tc d1 d2,
    pretype Samples.empty_main [] = Ok (scope, procs) r1 /\
    TypeChecker_check Samples.empty_main (TypeChecker_init scope procs r1)
      = Ok prgm' tc /\
    r1 = [] ++ d1 /\
    reporter tc = r1 ++ d2 /\
    [] = [] ++ d1 ++ d2 /\
    (true = true <-> d1 ++ d2 = []).
Proof.
  apply (check_true_iff_no_diagnostic Samples.empty_main [] true []).
  vm_compute. reflexivity.
Defined.

(** C1: on [proc main() { return; }] the PreTyper returns and records no
    diagnostic, and the TypeChecker records none either, yet [check] does
    not return [true]: the valueless return reads [self.proc.retty], which
    a [ProcDecl] does not have, and the [AttributeError] leaves [check]
    with the reporter still empty.  So zero diagnostics in the session do
    not make [check] return [true]. *)
Theorem check_silent_without_result :
  returns (pretype Samples.main_returns) [] /\
  state_of (pretype Samples.main_returns []) = [] /\
  check Samples.main_returns [] = Raise AttributeError [] /\
  state_of (check Samples.main_returns []) = [].
Proof.
  split; [| split; [| split]]; [| vm_compute; reflexivity ..].
  unfold returns.
  destruct (pretype Samples.main_returns []) as [a s | e s] eqn:Hrun;
    [eauto | vm_compute in Hrun; discriminate].
Qed.

(** ** Reports as additions to the reporter *)

Lemma add_diagnostics_nil tc : add_diagnostics [] tc = tc.
Proof. destruct tc. unfold add_diagnostics, set_reporter. simpl.
       now rewrite app_nil_r. Qed.

Lemma add_diagnostics_app ds1 ds2 tc :
  add_diagnostics ds2 (add_diagnostics ds1 tc) = add_diagnostics (ds1 ++ ds2) tc.
Proof. unfold add_diagnostics, set_reporter. simpl. now rewrite app_assoc. Qed.

Lemma report_eq msg position tc :
  report msg position tc = Ok tt (add_diagnostics [mkDiagnostic msg position] tc).
Proof. reflexivity. Qed.

Lemma check_expected_eq position type_ etype tc :
  check_expected position type_ etype tc =
  Ok tt (add_diagnostics (mismatch_diagnostics position type_ etype) tc).
Proof.
  unfold check_expected, mismatch_diagnostics, ret.
  destruct type_ as [t |], etype as [et |];
    rewrite ?add_diagnostics_nil; try reflexivity.
  destruct (Type_eqb t et); [now rewrite add_diagnostics_nil | reflexivity].
Qed.

Lemma in_int64_range_spec v :
  in_int64_range v = true <-> - 2 ^ 63 <= v <= 2 ^ 63 - 1.
Proof.
  unfold in_int64_range. rewrite bool_decide_eq_true.
  change (Z.shiftl 1 63) with (2 ^ 63). lia.
Qed.

(** ** Integer literals *)

(** C7: an integer literal is typed [int] whatever its value; checking it
    records the range diagnostic exactly when the value lies outside
    [-2^63, 2^63 - 1], and nothing else but the mismatch with an expected
    type other than [int]. *)
Theorem integer_literal_range position type_ v etype tc :
  for_expression (Expr position type_ (IntExpression v)) etype tc =
  Ok (Expr position (Some (Basic INT)) (IntExpression v))
     (add_diagnostics
        ((if decide (- 2 ^ 63 <= v <= 2 ^ 63 - 1) then []
          else [mkDiagnostic [Lit "integer literal out of range: "; PInt v]
                             None])
         ++ mismatch_diagnostics position (Some (Basic INT)) etype)
        tc).
Proof.
  cbn [for_expression]. unfold bind at 1. unfold bind at 1.
  unfold check_integer_constant_range.
  destruct (decide (- 2 ^ 63 <= v <= 2 ^ 63 - 1)) as [Hin | Hout].
  - apply in_int64_range_spec in Hin. rewrite Hin. cbn [negb ret].
    unfold bind. rewrite check_expected_eq. reflexivity.
  - destruct (in_int64_range v) eqn:Hr;
      [now apply in_int64_range_spec in Hr |].
    cbn [negb]. unfold bind at 1. rewrite report_eq. cbn [ret].
    unfold bind. rewrite check_expected_eq, add_diagnostics_app. reflexivity.
Qed.

Example integer_literal_min_accepted :
  for_expression (Samples.expr (IntExpression (-9223372036854775808))) None
    Samples.fresh
  = Ok (Expr None (Some (Basic INT)) (IntExpression (-9223372036854775808)))
       Samples.fresh.
Proof. reflexivity. Qed.

Example integer_literal_max_accepted :
  for_expression (Samples.expr (IntExpression 9223372036854775807)) None
    Samples.fresh
  = Ok (Expr None (Some (Basic INT)) (IntExpression 9223372036854775807))
       Samples.fresh.
Proof. reflexivity. Qed.

Example integer_literal_above_rejected :
  for_expression (Samples.expr (IntExpression 9223372036854775808)) None
    Samples.fresh
  = Ok (Expr None (Some (Basic INT)) (IntExpression 9223372036854775808))
       (add_diagnostics
          [mkDiagnostic [Lit "integer literal out of range: ";
                         PInt 9223372036854775808] None]
          Samples.fresh).
Proof. reflexivity. Qed.

Example integer_literal_below_rejected :
  for_expression (Samples.expr (IntExpression (-9223372036854775809))) None
    Samples.fresh
  = Ok (Expr None (Some (Basic INT)) (IntExpression (-9223372036854775809)))
       (add_diagnostics
          [mkDiagnostic [Lit "integer literal out of range: ";
                         PInt (-9223372036854775809)] None]
          Samples.fresh).
Proof. reflexivity. Qed.

(** ** Return statements *)

(** A return that carries a value leaves the value as it is: it is not
    walked, its type slot is not written, and nothing is compared with the
    return type of the procedure. *)
Lemma for_statement_return_value position e p tc :
  proc tc = Some p ->
  for_statement (ReturnStatement position (Some e)) tc =
  Ok (ReturnStatement position (Some e))
     (add_diagnostics
        (if decide (rettype p = None)
         then [mkDiagnostic [Lit "return statement in a subroutine"] position]
         else [])
        tc).
Proof.
  intros Hp. cbn [for_statement]. unfold bind, gets. rewrite Hp.
  destruct (decide (rettype p = None)) as [Hr | Hr].
  - rewrite bool_decide_eq_true_2 by assumption. reflexivity.
  - rewrite bool_decide_eq_false_2 by assumption.
    now rewrite add_diagnostics_nil.
Qed.

(** A return without a value records its diagnostic when the procedure
    declares a return type, and then fails on [self.proc.retty]. *)
Lemma for_statement_return_none position p tc :
  proc tc = Some p ->
  for_statement (ReturnStatement position None) tc =
  Raise AttributeError
     (add_diagnostics
        (if decide (is_Some (rettype p))
         then [mkDiagnostic [Lit "value-less return statement in a function"]
                            position]
         else [])
        tc).
Proof.
  intros Hp. cbn [for_statement]. unfold bind, gets. rewrite Hp.
  destruct (decide (is_Some (rettype p))) as [Hr | Hr].
  - rewrite bool_decide_eq_true_2 by assumption. reflexivity.
  - rewrite bool_decide_eq_false_2 by assumption.
    now rewrite add_diagnostics_nil.
Qed.

(** C2: in [proc f() : int { return true; }] the returned value is not
    type-checked against the declared return type: the program is accepted
    without a diagnostic and the type slot of [true] is still unset. *)
Theorem return_value_type_not_checked :
  check_program Samples.returns_bool_as_int [] =
  Ok (true, Samples.returns_bool_as_int) [].
Proof. vm_compute. reflexivity. Qed.

(** ** Completion *)

(** C3: checking [proc main() { return; }] stops on an [AttributeError] and
    checking a null literal stops on an [AssertionError]; neither returns a
    boolean. *)
Theorem check_does_not_complete :
  check Samples.main_returns [] = Raise AttributeError [] /\
  check Samples.main_null [] = Raise AssertionError [].
Proof. split; vm_compute; reflexivity. Qed.

(** ** Operators *)

(** C4: the table gives bitwise negation a [bool] operand and a [bool]
    result: applied to the literal [5] it records a mismatch for the
    operand and types the application [bool]. *)
Theorem bitwise_negation_signature :
  SIGS !! "bitwise-negation" = Some ([Basic BOOL], Basic BOOL) /\
  for_expression
    (Samples.expr
       (OpAppExpression "bitwise-negation"
          [Samples.expr (IntExpression 5)]))
    None Samples.fresh
  = Ok (Expr None (Some (Basic BOOL))
          (OpAppExpression "bitwise-negation"
             [Expr None (Some (Basic INT)) (IntExpression 5)]))
       (add_diagnostics
          [mkDiagnostic [Lit "invalid type: get "; PType (Basic INT);
                         Lit ", expected "; PType (Basic BOOL)] None]
          Samples.fresh).
Proof. split; vm_compute; reflexivity. Qed.

(** The other entries of the table are as the operator classes say. *)
Lemma SIGS_other_entries :
  SIGS !! "opposite" = Some ([Basic INT], Basic INT) /\
  SIGS !! "boolean-not" = Some ([Basic BOOL], Basic BOOL) /\
  Forall (fun op => SIGS !! op = Some ([Basic INT; Basic INT], Basic INT))
    ["addition"; "subtraction"; "multiplication"; "division"; "modulus";
     "logical-right-shift"; "logical-left-shift";
     "bitwise-and"; "bitwise-or"; "bitwise-xor"] /\
  Forall (fun op => SIGS !! op = Some ([Basic BOOL; Basic BOOL], Basic BOOL))
    ["boolean-and"; "boolean-or"] /\
  Forall (fun op => SIGS !! op = Some ([Basic INT; Basic INT], Basic BOOL))
    ["cmp-equal"; "cmp-not-equal"; "cmp-lower-than";
     "cmp-lower-or-equal-than"; "cmp-greater-than";
     "cmp-greater-or-equal-than"] /\
  dom SIGS =
    list_to_set
      ["opposite"; "bitwise-negation"; "boolean-not";
       "addition"; "subtraction"; "multiplication"; "division"; "modulus";
       "logical-right-shift"; "logical-left-shift";
       "bitwise-and"; "bitwise-or"; "bitwise-xor";
       "boolean-and"; "boolean-or";
       "cmp-equal"; "cmp-not-equal"; "cmp-lower-than";
       "cmp-lower-or-equal-than"; "cmp-greater-than";
       "cmp-greater-or-equal-than"].
Proof.
  repeat split; repeat constructor.
Qed.

(** ** Local declarations *)

(** C9: a local declaration is checked against the innermost frame alone.
    When that frame binds the name already, the duplicate is reported and
    the scope is left as it is; otherwise, whatever the enclosing frames
    bind, nothing is reported and the innermost frame binds the name to the
    declared type.  The initialiser is checked after that in both cases. *)
Theorem local_declaration_innermost_frame
    position name init vtype tc frame outer :
  scope tc = frame :: outer ->
  for_statement (VarDeclStatement position name init vtype) tc =
  (do init' <- for_expression init (Some vtype);
   ret (VarDeclStatement position name init' vtype))
    (if decide (is_Some (frame !! value name)) then
       add_diagnostics
         [mkDiagnostic
            [Lit "duplicated variable declaration for "; PStr (value name)]
            None] tc
     else
       set_scope (fun _ => <[value name := vtype]> frame :: outer) tc).
Proof.
  intros Hscope. cbn [for_statement].
  unfold check_local_free, bind at 1 2, gets. rewrite Hscope.
  cbn [Scope_islocal].
  destruct (decide (is_Some (frame !! value name))) as [Hb | Hf].
  - rewrite bool_decide_eq_true_2 by assumption. reflexivity.
  - rewrite bool_decide_eq_false_2 by assumption. cbn [ret].
    unfold bind at 1. unfold modify, set_scope. rewrite Hscope. reflexivity.
Qed.

(** A name bound in the enclosing frame only is shadowed without a
    diagnostic. *)
Lemma local_declaration_innermost_frame_witness :
  let tc := set_scope (fun _ => [∅; {["x" := Basic BOOL]}]) Samples.fresh in
  for_statement
    (VarDeclStatement None (Samples.name "x")
       (Samples.expr (IntExpression 1)) (Basic INT)) tc =
  (do init' <- for_expression (Samples.expr (IntExpression 1))
                 (Some (Basic INT));
   ret (VarDeclStatement None (Samples.name "x") init' (Basic INT)))
    (if decide (is_Some ((∅ : gmap string Type_) !! "x")) then
       add_diagnostics
         [mkDiagnostic [Lit "duplicated variable declaration for "; PStr "x"]
            None] tc
     else
       set_scope (fun _ => <["x" := Basic INT]> ∅ :: [{["x" := Basic BOOL]}])
         tc).
Proof.
  exact (local_declaration_innermost_frame None (Samples.name "x")
           (Samples.expr (IntExpression 1)) (Basic INT)
           (set_scope (fun _ => [∅; {["x" := Basic BOOL]}]) Samples.fresh)
           ∅ [{["x" := Basic BOOL]}] eq_refl).
Defined.

Example local_declaration_shadows :
  let tc := set_scope (fun _ => [∅; {["x" := Basic BOOL]}]) Samples.fresh in
  for_statement
    (VarDeclStatement None (Samples.name "x")
       (Samples.expr (IntExpression 1)) (Basic INT)) tc =
  Ok (VarDeclStatement None (Samples.name "x")
        (Expr None (Some (Basic INT)) (IntExpression 1)) (Basic INT))
     (set_scope (fun _ => [{["x" := Basic INT]}; {["x" := Basic BOOL]}]) tc).
Proof. vm_compute. reflexivity. Qed.

Example local_declaration_duplicate :
  let tc := set_scope (fun _ => [{["x" := Basic BOOL]}; ∅]) Samples.fresh in
  for_statement
    (VarDeclStatement None (Samples.name "x")
       (Samples.expr (IntExpression 1)) (Basic INT)) tc =
  Ok (VarDeclStatement None (Samples.name "x")
        (Expr None (Some (Basic INT)) (IntExpression 1)) (Basic INT))
     (add_diagnostics
        [mkDiagnostic [Lit "duplicated variable declaration for "; PStr "x"]
           None] tc).
Proof. vm_compute. reflexivity. Qed.

(** ** Argument lists *)

Section ArgumentLists.
Context {S A T : Type} (f : A -> option T -> M S A).

Lemma for_zip_take_drop atypes arguments s :
  for_zip f atypes arguments s =
  match for_zip f atypes (take (length atypes) arguments) s with
  | Ok checked s' => Ok (checked ++ drop (length atypes) arguments) s'
  | Raise e s' => Raise e s'
  end.
Proof.
  revert atypes s.
  induction arguments as [| a arguments IH]; intros [| t atypes] s;
    try reflexivity.
  cbn [for_zip length take drop]. unfold bind, ret.
  destruct (f a (Some t) s) as [a' s1 | e s1]; [| reflexivity].
  rewrite IH.
  destruct (for_zip f atypes (take _ arguments) s1); reflexivity.
Qed.



End ArgumentLists.

(** ** Operator applications *)

(** C10: in an operator application only the arguments that have a
    parameter in the operator's signature are checked; those beyond its
    arity are left exactly as they were, slot included, the number of
    arguments is compared with nothing, and besides what the checked
    arguments record the only diagnostic is the mismatch of the result
    type with an expected type. *)
Theorem operator_extra_arguments_untouched
    position type_ opname arguments etype tc opsig :
  SIGS !! opname = Some opsig ->
  for_expression (Expr position type_ (OpAppExpression opname arguments))
    etype tc =
  (do checked <- for_zip for_expression opsig.1
                   (take (length opsig.1) arguments);
   check_expected position (Some opsig.2) etype ;;
   ret (Expr position (Some opsig.2)
          (OpAppExpression opname
             (checked ++ drop (length opsig.1) arguments)))) tc.
Proof.
  intros Hsig. cbn [for_expression]. rewrite Hsig.
  unfold bind, ret. rewrite for_zip_take_drop.
  destruct (for_zip for_expression opsig.1 (take _ arguments) tc);
    reflexivity.
Qed.

Lemma operator_extra_arguments_untouched_witness :
  for_expression
    (Samples.expr
       (OpAppExpression "addition"
          [Samples.expr (IntExpression 1); Samples.expr (IntExpression 2);
           Samples.expr (BoolExpression true)]))
    None Samples.fresh =
  (do checked <- for_zip for_expression [Basic INT; Basic INT]
                   (take 2 [Samples.expr (IntExpression 1);
                            Samples.expr (IntExpression 2);
                            Samples.expr (BoolExpression true)]);
   check_expected None (Some (Basic INT)) None ;;
   ret (Expr None (Some (Basic INT))
          (OpAppExpression "addition"
             (checked ++ drop 2 [Samples.expr (IntExpression 1);
                                 Samples.expr (IntExpression 2);
                                 Samples.expr (BoolExpression true)]))))
    Samples.fresh.
Proof.
  exact (operator_extra_arguments_untouched None None "addition"
           [Samples.expr (IntExpression 1); Samples.expr (IntExpression 2);
            Samples.expr (BoolExpression true)]
           None Samples.fresh ([Basic INT; Basic INT], Basic INT) eq_refl).
Defined.

(** [1 + 2] with a third argument [true], and [1 +] with none to its
    right: both are checked without a diagnostic. *)
Example operator_three_arguments :
  for_expression
    (Samples.expr
       (OpAppExpression "addition"
          [Samples.expr (IntExpression 1); Samples.expr (IntExpression 2);
           Samples.expr (BoolExpression true)]))
    None Samples.fresh =
  Ok (Expr None (Some (Basic INT))
        (OpAppExpression "addition"
           [Expr None (Some (Basic INT)) (IntExpression 1);
            Expr None (Some (Basic INT)) (IntExpression 2);
            Expr None None (BoolExpression true)]))
     Samples.fresh.
Proof. vm_compute. reflexivity. Qed.

Example operator_one_argument :
  for_expression
    (Samples.expr
       (OpAppExpression "addition" [Samples.expr (IntExpression 1)]))
    None Samples.fresh =
  Ok (Expr None (Some (Basic INT))
        (OpAppExpression "addition"
           [Expr None (Some (Basic INT)) (IntExpression 1)]))
     Samples.fresh.
Proof. vm_compute. reflexivity. Qed.

(** ** Calls *)


(** ** The expected type *)

Lemma for_expression_expected expr etype tc :
  for_expression expr etype tc =
  match for_expression expr None tc with
  | Ok expr' tc0 =>
      Ok expr'
         (add_diagnostics
            (mismatch_diagnostics (expr_position expr) (expr_type expr')
               etype) tc0)
  | Raise e tc0 => Raise e tc0
  end.
Proof.
  destruct expr as [position type_ node]. cbn [for_expression expr_position].
  match goal with
  | |- bind ?m _ tc = _ => generalize m; intros inner
  end.
  unfold bind, ret.
  destruct (inner tc) as [[t n] tc0 | e tc0]; [| reflexivity].
  rewrite !check_expected_eq. cbn [expr_type].
  replace (mismatch_diagnostics position t None) with ([] : list Diagnostic)
    by now destruct t.
  now rewrite add_diagnostics_nil.
Qed.

(** When checking completes, the slot is unset for an unresolved variable
    and for a call to an unknown procedure, and set for every other
    expression. *)
Lemma for_expression_untyped expr tc expr' tc' :
  for_expression expr None tc = Ok expr' tc' ->
  expr_type expr' = None <->
  (exists name, expr_node expr = VarExpression name /\
                Scope_contains (value name) (scope tc) = false) \/
  (exists name arguments,
     expr_node expr = CallExpression name arguments /\
     procs tc !! value name = None).
Proof.
  destruct expr as [position type_ node]. cbn [for_expression expr_node].
  intros Hrun. apply bind_Ok_inv in Hrun as ([t n] & tc1 & Hnode & Hrun).
  ok_inv. cbn [expr_type].
  unfold check_local_bound, scope_getitem, check_integer_constant_range
    in Hnode.
  destruct node;
    repeat (ok_inv;
            try match goal with
                | H : match ?x with _ => _ end _ = Ok _ _ |- _ =>
                    destruct x eqn:?
                end;
            try discriminate).
  all: match goal with
       | |- Some _ = None <-> _ =>
           split; [discriminate |];
           intros [(? & Heq & Hc) | (? & ? & Heq & Hp)];
           try discriminate Heq; injection Heq as <-; subst;
           first [congruence | rewrite Hc in *; discriminate]
       | |- None = None <-> _ =>
           split; [intros _ | reflexivity];
           first [left; eexists; split; [reflexivity |];
                  now apply negb_true_iff
                 | right; eauto]
       end.
Qed.

(** On the runs that return, checking an expression against an expected
    type annotates it exactly as checking it with none does.  When a type
    was inferred, it is in the slot, and the mismatch is recorded exactly
    when it differs from the expected one; when none was inferred, which is
    then the case of an unresolved variable and of a call to an unknown
    procedure only, the slot is unset and nothing is compared.  A
    dereference and an indexing never get that far: their cases raise, see
    [dereference_and_index_not_reported] below. *)
Theorem expected_type_comparison expr et tc expr' tc' :
  for_expression expr (Some et) tc = Ok expr' tc' ->
  exists tc0,
    for_expression expr None tc = Ok expr' tc0 /\
    match expr_type expr' with
    | Some t =>
        (t = et -> tc' = tc0) /\
        (t <> et ->
         tc' = add_diagnostics
                 [mkDiagnostic [Lit "invalid type: get "; PType t;
                                Lit ", expected "; PType et]
                               (expr_position expr)] tc0)
    | None =>
        tc' = tc0 /\
        ((exists name, expr_node expr = VarExpression name /\
                       Scope_contains (value name) (scope tc) = false) \/
         (exists name arguments,
            expr_node expr = CallExpression name arguments /\
            procs tc !! value name = None))
    end.
Proof.
  rewrite for_expression_expected.
  destruct (for_expression expr None tc) as [e0 tc0 | e tc0] eqn:Hrun;
    [| discriminate].
  intros [= -> <-]. exists tc0. split; [reflexivity |].
  destruct (expr_type expr') as [t |] eqn:Ht; cbn [mismatch_diagnostics].
  - destruct (Type_eqb t et) eqn:Heq; split; intros Ht';
      [ apply add_diagnostics_nil
      | apply Type_eqb_eq in Heq; contradiction
      | apply Type_eqb_neq in Heq; contradiction
      | reflexivity ].
  - split; [apply add_diagnostics_nil |].
    now apply (for_expression_untyped _ _ _ _ Hrun).
Qed.

Lemma expected_type_comparison_witness :
  exists tc0,
    for_expression (Samples.expr (BoolExpression true)) None Samples.fresh
    = Ok (Expr None (Some (Basic BOOL)) (BoolExpression true)) tc0 /\
    (Basic BOOL = Basic INT ->
     add_diagnostics
       [mkDiagnostic [Lit "invalid type: get "; PType (Basic BOOL);
                      Lit ", expected "; PType (Basic INT)] None]
       Samples.fresh = tc0) /\
    (Basic BOOL <> Basic INT ->
     add_diagnostics
       [mkDiagnostic [Lit "invalid type: get "; PType (Basic BOOL);
                      Lit ", expected "; PType (Basic INT)] None]
       Samples.fresh
     = add_diagnostics
         [mkDiagnostic [Lit "invalid type: get "; PType (Basic BOOL);
                        Lit ", expected "; PType (Basic INT)] None] tc0).
Proof.
  exact (expected_type_comparison
           (Samples.expr (BoolExpression true)) (Basic INT) Samples.fresh
           (Expr None (Some (Basic BOOL)) (BoolExpression true))
           (add_diagnostics
              [mkDiagnostic [Lit "invalid type: get "; PType (Basic BOOL);
                             Lit ", expected "; PType (Basic INT)] None]
              Samples.fresh)
           eq_refl).
Defined.

(** An unresolved variable checked against [int]: the slot stays unset
    and the missing declaration is the only diagnostic. *)
Example unresolved_variable_expected_int :
  for_expression (Samples.expr (VarExpression (Samples.name "x")))
    (Some (Basic INT)) Samples.fresh =
  Ok (Expr None None (VarExpression (Samples.name "x")))
     (add_diagnostics
        [mkDiagnostic [Lit "missing variable declaration for "; PStr "x"]
                      None]
        Samples.fresh).
Proof. vm_compute. reflexivity. Qed.

(** A dereference and an indexing stop on [Type.POINTER_INT] and
    [Type.INT], once what they evaluate before is checked. *)
Lemma dereference_raises position type_ pointer_expr etype tc :
  exists e tc', for_expression
                  (Expr position type_ (DereferenceExpression pointer_expr))
                  etype tc = Raise e tc'.
Proof.
  cbn [for_expression]. unfold bind, raise.
  destruct (for_expression pointer_expr None tc); eauto.
Qed.

Lemma index_raises position type_ array_expr index_expr etype tc :
  exists e tc', for_expression
                  (Expr position type_ (IndexExpression array_expr index_expr))
                  etype tc = Raise e tc'.
Proof.
  cbn [for_expression]. unfold bind, raise.
  destruct (for_expression array_expr None tc); eauto.
Qed.

(** C8: the dereference [*true] and the indexing [true[0]], checked against
    the expected type [int], do not come back with the slot left unset and
    the base reported: [for_expression] raises an [AttributeError] on
    [Type.POINTER_INT] and on [Type.INT], with nothing recorded, and so
    does [check] on [proc main() { print *true; }] and on
    [proc main() { print true[0]; }].  Whatever the operand, the expected
    type and the state, a dereference and an indexing raise. *)
Theorem dereference_and_index_not_reported :
  for_expression
    (Samples.expr (DereferenceExpression (Samples.expr (BoolExpression true))))
    (Some (Basic INT)) Samples.fresh
  = Raise AttributeError Samples.fresh /\
  for_expression
    (Samples.expr (IndexExpression (Samples.expr (BoolExpression true))
                                   (Samples.expr (IntExpression 0))))
    (Some (Basic INT)) Samples.fresh
  = Raise AttributeError Samples.fresh /\
  check
    [Samples.procedure "main" [] None
       [PrintStatement None
          (Samples.expr
             (DereferenceExpression (Samples.expr (BoolExpression true))))]]
    []
  = Raise AttributeError [] /\
  check
    [Samples.procedure "main" [] None
       [PrintStatement None
          (Samples.expr
             (IndexExpression (Samples.expr (BoolExpression true))
                              (Samples.expr (IntExpression 0))))]]
    []
  = Raise AttributeError [] /\
  (forall position type_ pointer_expr etype tc,
     exists e tc',
       for_expression
         (Expr position type_ (DereferenceExpression pointer_expr)) etype tc
       = Raise e tc') /\
  (forall position type_ array_expr index_expr etype tc,
     exists e tc',
       for_expression
         (Expr position type_ (IndexExpression array_expr index_expr))
         etype tc
       = Raise e tc').
Proof.
  split; [| split; [| split; [| split; [| split]]]].
  1-4: vm_compute; reflexivity.
  - intros. apply dereference_raises.
  - intros. apply index_raises.
Qed.

(** ** Guaranteed return *)




(** * Further properties *)

(** ** PreTyper *)

Lemma pretype_loop_raises prgm scope procs r :
  existsb is_typedef prgm = true ->
  exists r', pretype_loop prgm scope procs r = Raise AssertionError r'.
Proof.
  revert scope procs r.
  induction prgm as [| decl prgm IH]; intros scope procs r; [discriminate |].
  cbn [existsb pretype_loop].
  destruct decl as [p name init gtype | [p name args retty body] | p a t];
    cbn [is_typedef orb]; intros Hex.
  - destruct (Scope_contains _ _); [| now apply IH].
    unfold bind, report_to, modify. now apply IH.
  - destruct (bool_decide _); [| now apply IH].
    unfold bind, report_to, modify. now apply IH.
  - eexists. reflexivity.
Qed.

Lemma pretype_loop_returns prgm scope procs r :
  existsb is_typedef prgm = false ->
  exists scope' procs' r',
    pretype_loop prgm scope procs r = Ok (scope', procs') r'.
Proof.
  revert scope procs r.
  induction prgm as [| decl prgm IH]; intros scope procs r.
  - intros _. do 3 eexists. reflexivity.
  - cbn [existsb pretype_loop].
    destruct decl as [p name init gtype | [p name args retty body] | p a t];
      cbn [is_typedef orb]; intros Hex; [| | discriminate].
    + destruct (Scope_contains _ _); [| now apply IH].
      unfold bind, report_to, modify. now apply IH.
    + destruct (bool_decide _); [| now apply IH].
      unfold bind, report_to, modify. now apply IH.
Qed.

(** X1: [pretype] raises exactly on the programs that hold a type alias,
    and what it raises is the [AssertionError] of its catch-all case. *)
Theorem pretype_raises_iff_typedef prgm r :
  (exists e r', pretype prgm r = Raise e r') <->
  existsb is_typedef prgm = true.
Proof.
  unfold pretype, bind. split.
  - intros (e & r' & Hrun).
    destruct (existsb is_typedef prgm) eqn:Hex; [reflexivity |].
    destruct (pretype_loop_returns prgm Scope_new ∅ r Hex)
      as (scope' & procs' & r1 & Hloop).
    rewrite Hloop in Hrun.
    destruct (procs' !! "main") as [sig |];
      [destruct (SigType_is_main sig) |]; discriminate.
  - intros Hex.
    destruct (pretype_loop_raises prgm Scope_new ∅ r Hex) as (r' & Hloop).
    rewrite Hloop. eauto.
Qed.

Lemma pretype_loop_procs prgm :
  forall scope procs r scope' procs' r' n,
    pretype_loop prgm scope procs r = Ok (scope', procs') r' ->
    procs' !! n =
    match procs !! n with
    | Some sig => Some sig
    | None => signature_of <$> first_procedure n prgm
    end.
Proof.
  induction prgm as [| decl prgm IH]; intros scope procs r scope' procs' r' n;
    cbn [pretype_loop first_procedure].
  - intros [= _ <- _]. now destruct (procs !! n).
  - destruct decl as [p name init gtype | [p name args retty body] | p a t];
      [| | discriminate].
    + destruct (Scope_contains _ _); [| now apply IH].
      unfold bind, report_to, modify. now apply IH.
    + cbn [proc_name].
      destruct (bool_decide (is_Some (procs !! value name))) eqn:Hdup.
      * unfold bind, report_to, modify. intros Hrun.
        rewrite (IH _ _ _ _ _ _ n Hrun).
        apply bool_decide_eq_true in Hdup as [sig Hsig].
        destruct (decide (value name = n)) as [<- | Hne]; [| reflexivity].
        now rewrite Hsig.
      * intros Hrun. rewrite (IH _ _ _ _ _ _ n Hrun).
        apply bool_decide_eq_false in Hdup.
        destruct (decide (value name = n)) as [<- | Hne].
        -- rewrite lookup_insert_eq.
           destruct (procs !! value name) eqn:Hp; [| reflexivity].
           exfalso. apply Hdup. eauto.
        -- now rewrite lookup_insert_ne.
Qed.

(** X2: of several procedures with one name the first wins: the table
    that [pretype] returns maps a name to the parameter types and the
    return type ([void] when none is declared) of the first procedure
    declared with that name, and holds no other name. *)
Theorem pretype_first_procedure_wins prgm r scope procs r' n :
  pretype prgm r = Ok (scope, procs) r' ->
  procs !! n = signature_of <$> first_procedure n prgm.
Proof.
  unfold pretype. intros Hrun.
  apply bind_Ok_inv in Hrun as ([scope0 procs0] & r0 & Hloop & Hrun).
  apply bind_Ok_inv in Hrun as (? & ? & _ & Hrun).
  injection Hrun as <- <- _.
  rewrite (pretype_loop_procs _ _ _ _ _ _ _ n Hloop).
  now rewrite lookup_empty.
Qed.

Lemma pretype_first_procedure_wins_witness :
  (<["f" := ([Basic INT; Basic INT], Basic VOID)]>
     (<["main" := ([], Basic VOID)]> ∅) : ProcSigMap) !! "f" =
  signature_of <$> first_procedure "f" Samples.call_with_one_argument.
Proof.
  exact (pretype_first_procedure_wins Samples.call_with_one_argument []
           Scope_new _ _ "f" eq_refl).
Defined.

Lemma Scope_contains_one frame n :
  Scope_contains n [frame] = bool_decide (is_Some (frame !! n)).
Proof.
  unfold Scope_contains. cbn [Scope_getitem].
  now destruct (frame !! n).
Qed.

Lemma pretype_loop_scope prgm :
  forall frame procs r scope' procs' r',
    pretype_loop prgm [frame] procs r = Ok (scope', procs') r' ->
    exists frame',
      scope' = [frame'] /\
      forall n, frame' !! n =
                match frame !! n with
                | Some t => Some t
                | None => first_global n prgm
                end.
Proof.
  induction prgm as [| decl prgm IH]; intros frame procs r scope' procs' r';
    cbn [pretype_loop first_global].
  - intros [= <- _ _]. exists frame. split; [reflexivity |].
    intros n. now destruct (frame !! n).
  - destruct decl as [p name init gtype | [p name args retty body] | p a t];
      [| | discriminate].
    + rewrite Scope_contains_one.
      destruct (bool_decide (is_Some (frame !! value name))) eqn:Hdup.
      * unfold bind, report_to, modify. intros Hrun.
        destruct (IH _ _ _ _ _ _ Hrun) as (frame' & -> & Hframe).
        exists frame'. split; [reflexivity |]. intros n. rewrite Hframe.
        apply bool_decide_eq_true in Hdup as [t Ht].
        destruct (decide (value name = n)) as [<- | Hne]; [| reflexivity].
        now rewrite Ht.
      * cbn [Scope_push]. intros Hrun.
        destruct (IH _ _ _ _ _ _ Hrun) as (frame' & -> & Hframe).
        exists frame'. split; [reflexivity |]. intros n. rewrite Hframe.
        apply bool_decide_eq_false in Hdup.
        destruct (decide (value name = n)) as [<- | Hne].
        -- rewrite lookup_insert_eq.
           destruct (frame !! value name) eqn:Hp; [| reflexivity].
           exfalso. apply Hdup. eauto.
        -- now rewrite lookup_insert_ne.
    + destruct (bool_decide _); [| now apply IH].
      unfold bind, report_to, modify. now apply IH.
Qed.

(** X3: the scope that [pretype] returns is one frame, and it binds a name
    to the declared type of the first global variable with that name; a
    later global of the same name changes nothing, and procedures bind
    nothing. *)
Theorem pretype_first_global_wins prgm r scope procs r' :
  pretype prgm r = Ok (scope, procs) r' ->
  exists frame,
    scope = [frame] /\ forall n, frame !! n = first_global n prgm.
Proof.
  unfold pretype. intros Hrun.
  apply bind_Ok_inv in Hrun as ([scope0 procs0] & r0 & Hloop & Hrun).
  apply bind_Ok_inv in Hrun as (? & ? & _ & Hrun).
  injection Hrun as <- <- _.
  destruct (pretype_loop_scope _ _ _ _ _ _ _ Hloop) as (frame & -> & Hframe).
  exists frame. split; [reflexivity |]. intros n.
  now rewrite Hframe, lookup_empty.
Qed.

Lemma pretype_first_global_wins_witness :
  exists frame,
    Scope_new = [frame] /\
    forall n, frame !! n = first_global n Samples.empty_main.
Proof.
  exact (pretype_first_global_wins Samples.empty_main [] Scope_new _ _
           eq_refl).
Defined.

Lemma SigType_is_main_signature decl :
  SigType_is_main (signature_of decl) = true <->
  proc_arguments decl = [] /\
  (rettype decl = None \/ rettype decl = Some (Basic VOID)).
Proof.
  destruct decl as [p name args retty body].
  unfold signature_of, SigType_is_main. cbn [proc_arguments rettype].
  destruct args as [| a args]; cbn [fmap list_fmap].
  - rewrite Type_eqb_eq. destruct retty as [t |].
    + split; [intros ->; auto | intros [_ [[=] | [= ->]]]; reflexivity].
    + split; auto.
  - split; [discriminate | intros [[=] _]].
Qed.

Lemma pretype_main_diagnostic prgm r scope procs r' :
  pretype prgm r = Ok (scope, procs) r' ->
  exists r0,
    pretype_loop prgm Scope_new ∅ r = Ok (scope, procs) r0 /\
    match first_procedure "main" prgm with
    | None =>
        r' = r0 ++ [mkDiagnostic
                      [Lit "this program is missing a main subroutine"] None]
    | Some decl =>
        (proc_arguments decl = [] /\
         (rettype decl = None \/ rettype decl = Some (Basic VOID)) ->
         r' = r0) /\
        (~ (proc_arguments decl = [] /\
            (rettype decl = None \/ rettype decl = Some (Basic VOID))) ->
         r' = r0 ++
              [mkDiagnostic
                 [Lit dquote; Lit "main"; Lit dquote;
                  Lit " should not take any argument and should not return any value"]
                 None])
    end.
Proof.
  unfold pretype. intros Hrun.
  apply bind_Ok_inv in Hrun as ([scope0 procs0] & r0 & Hloop & Hrun).
  apply bind_Ok_inv in Hrun as ([] & r1 & Hmain & Hrun).
  injection Hrun as <- <- <-. exists r0. split; [exact Hloop |].
  pose proof (pretype_loop_procs _ _ _ _ _ _ _ "main" Hloop) as Hp.
  rewrite lookup_empty in Hp. rewrite Hp in Hmain.
  destruct (first_procedure "main" prgm) as [decl |]; cbn [fmap option_fmap option_map] in Hmain.
  - pose proof (SigType_is_main_signature decl) as Hsig.
    destruct (SigType_is_main (signature_of decl)).
    + injection Hmain as <-. split; [reflexivity |].
      intros Hn. exfalso. apply Hn, Hsig. reflexivity.
    + injection Hmain as <-. split; [| reflexivity].
      intros Hy. apply Hsig in Hy. discriminate.
  - injection Hmain as <-. reflexivity.
Qed.

(** X4: the entry point is judged on the first procedure named [main]
    alone.  After the walk over the declarations [pretype] records exactly
    one more diagnostic when there is no such procedure, none when it has
    no parameter and no return type (or the return type [void]), and the
    signature diagnostic otherwise. *)
Theorem pretype_main_check prgm r scope procs r' :
  pretype prgm r = Ok (scope, procs) r' ->
  exists r0,
    pretype_loop prgm Scope_new ∅ r = Ok (scope, procs) r0 /\
    match first_procedure "main" prgm with
    | None =>
        r' = r0 ++ [mkDiagnostic
                      [Lit "this program is missing a main subroutine"] None]
    | Some decl =>
        (proc_arguments decl = [] /\
         (rettype decl = None \/ rettype decl = Some (Basic VOID)) ->
         r' = r0) /\
        (~ (proc_arguments decl = [] /\
            (rettype decl = None \/ rettype decl = Some (Basic VOID))) ->
         r' = r0 ++
              [mkDiagnostic
                 [Lit dquote; Lit "main"; Lit dquote;
                  Lit " should not take any argument and should not return any value"]
                 None])
    end.
Proof. apply pretype_main_diagnostic. Qed.

Lemma pretype_main_check_witness :
  exists r0,
    pretype_loop [] Scope_new ∅ [] = Ok (Scope_new, ∅) r0 /\
    [mkDiagnostic [Lit "this program is missing a main subroutine"] None]
    = r0 ++ [mkDiagnostic
               [Lit "this program is missing a main subroutine"] None].
Proof.
  exact (pretype_main_check [] [] Scope_new ∅ _ eq_refl).
Defined.

(** ** What the walks leave alone *)

Section Keeps.
Context {S : Type} (R : relation S) `{!PreOrder R}.

Lemma keeps_ret {A} (a : A) : keeps R (ret a).
Proof. intros s. reflexivity. Qed.

Lemma keeps_raise {A} e : keeps R (@raise S A e).
Proof. intros s. reflexivity. Qed.

Lemma keeps_gets {A} (f : S -> A) : keeps R (gets f).
Proof. intros s. reflexivity. Qed.

Lemma keeps_modify (f : S -> S) : (forall s, R s (f s)) -> keeps R (modify f).
Proof. intros H s. apply H. Qed.

Lemma keeps_bind {A B} (m : M S A) (k : A -> M S B) :
  keeps R m -> (forall a, keeps R (k a)) -> keeps R (bind m k).
Proof.
  intros Hm Hk s. specialize (Hm s). unfold bind.
  destruct (m s) as [a s1 | e s1]; simpl in *; [| assumption].
  etransitivity; [exact Hm | apply Hk].
Qed.

Lemma keeps_for_each {A} (f : A -> M S A) xs :
  Forall (fun x => keeps R (f x)) xs -> keeps R (for_each f xs).
Proof.
  induction 1 as [| x xs Hx _ IH]; simpl.
  - apply keeps_ret.
  - apply keeps_bind; [exact Hx |]. intros x'.
    apply keeps_bind; [exact IH |]. intros xs'. apply keeps_ret.
Qed.

Lemma keeps_for_zip {A T} (f : A -> option T -> M S A) atypes arguments :
  Forall (fun a => forall et, keeps R (f a et)) arguments ->
  keeps R (for_zip f atypes arguments).
Proof.
  intros H. revert atypes.
  induction H as [| a arguments Ha _ IH]; intros [| atype atypes]; simpl;
    try apply keeps_ret.
  apply keeps_bind; [apply Ha |]. intros a'.
  apply keeps_bind; [apply IH |]. intros rest. apply keeps_ret.
Qed.

Lemma keeps_for_enumerate {A T} (f : A -> option T -> M S A)
    atypes i arguments :
  Forall (fun a => forall et, keeps R (f a et)) arguments ->
  keeps R (for_enumerate f atypes i arguments).
Proof.
  intros H. revert i.
  induction H as [| a arguments Ha _ IH]; intros i; simpl;
    try apply keeps_ret.
  apply keeps_bind; [apply Ha |]. intros a'.
  apply keeps_bind; [apply IH |]. intros rest. apply keeps_ret.
Qed.
End Keeps.

Ltac keeps_tc := try (solve [typeclasses eauto]).

#[local] Instance same_context_preorder : PreOrder same_context.
Proof.
  split.
  - intros tc. now repeat split.
  - intros a b c (? & ? & ? & ?) (? & ? & ? & ?).
    repeat split; congruence.
Qed.

#[local] Instance same_outer_preorder : PreOrder same_outer.
Proof.
  split.
  - intros tc. now repeat split.
  - intros a b c (? & ? & ? & ?) (? & ? & ? & ?).
    repeat split; congruence.
Qed.

Lemma same_context_outer tc tc' : same_context tc tc' -> same_outer tc tc'.
Proof. intros (Hs & ? & ? & ?). repeat split; try assumption. now rewrite Hs. Qed.

Lemma keeps_context_outer {A} (m : M TypeChecker A) :
  keeps same_context m -> keeps same_outer m.
Proof. intros H tc. apply same_context_outer, H. Qed.

Lemma keeps_report R `{!PreOrder R} msg position :
  (forall tc f, R tc (set_reporter f tc)) -> keeps R (report msg position).
Proof. intros H. apply keeps_modify; keeps_tc. intros tc. apply H. Qed.

Lemma same_context_set_reporter tc f : same_context tc (set_reporter f tc).
Proof. now repeat split. Qed.

Lemma same_outer_set_reporter tc f : same_outer tc (set_reporter f tc).
Proof. now repeat split. Qed.

Lemma same_outer_push n t tc :
  same_outer tc (set_scope (Scope_push n t) tc).
Proof.
  repeat split. simpl. now destruct (scope tc).
Qed.

(** One step through a computation, as [grows_step] does for the reporter. *)
Ltac keeps_step :=
  match goal with
  | |- keeps _ (bind _ _) => apply keeps_bind; keeps_tc; [| intros ?]
  | |- keeps _ (ret _) => apply keeps_ret; keeps_tc
  | |- keeps _ (raise _) => apply keeps_raise; keeps_tc
  | |- keeps _ (gets _) => apply keeps_gets; keeps_tc
  | H : forall tc f, ?R tc (set_reporter f tc) |- keeps ?R (report _ _) =>
      apply keeps_report; keeps_tc; exact H
  | |- keeps same_outer (modify (set_scope (Scope_push _ _))) =>
      apply keeps_modify; keeps_tc; intros ?; apply same_outer_push
  | |- keeps _ (match ?x with _ => _ end) =>
      first [is_var x; destruct x
            | let y := fresh in generalize x; intros y; destruct y]
  | |- _ => assumption
  end.

Lemma keeps_check_local_bound R `{!PreOrder R} name :
  (forall tc f, R tc (set_reporter f tc)) ->
  keeps R (check_local_bound name).
Proof.
  intros H. unfold check_local_bound, scope_getitem. repeat keeps_step.
Qed.

Lemma keeps_check_local_free R `{!PreOrder R} name :
  (forall tc f, R tc (set_reporter f tc)) ->
  keeps R (check_local_free name).
Proof. intros H. unfold check_local_free. repeat keeps_step. Qed.

Lemma keeps_for_expression expr :
  forall etype, keeps same_context (for_expression expr etype).
Proof.
  induction expr as [position type_ node IH] using Expression_nested_ind.
  intros etype.
  pose proof same_context_set_reporter as Hrep.
  pose proof (keeps_check_local_bound same_context) as Hbound.
  destruct node; cbn [for_expression children] in *;
    unfold scope_getitem, check_integer_constant_range, check_expected;
    repeat match goal with
           | H : Forall _ (_ :: _) |- _ => apply Forall_cons in H as [? ?]
           end;
    repeat first
      [ apply Hbound; exact Hrep
      | apply keeps_for_zip; keeps_tc; assumption
      | apply keeps_for_enumerate; keeps_tc; assumption
      | match goal with H : forall et, keeps _ _ |- _ => apply H end
      | keeps_step ].
Qed.

(** X5: checking an expression touches nothing of the checker but the
    reporter: scope, signature table, loop counter and enclosing procedure
    are as before, whether the check returns or raises. *)
Theorem for_expression_only_reports expr etype tc :
  let tc' := state_of (for_expression expr etype tc) in
  scope tc' = scope tc /\ procs tc' = procs tc /\
  loops tc' = loops tc /\ proc tc' = proc tc.
Proof. apply keeps_for_expression. Qed.

Lemma keeps_in_loop {A} (m : M TypeChecker A) :
  keeps same_outer m -> keeps same_outer (in_loop m).
Proof.
  intros H tc. unfold in_loop, bind, modify, try_finally.
  specialize (H (set_loops (fun n => n + 1) tc)).
  destruct (m _) as [a tc1 | e tc1]; simpl in *;
    destruct H as (? & ? & Hl & ?); repeat split; simpl;
    try assumption; rewrite Hl; simpl; lia.
Qed.

Lemma keeps_in_subscope {A} (m : M TypeChecker A) :
  keeps same_outer m -> keeps same_context (in_subscope m).
Proof.
  intros H tc. unfold in_subscope, bind, modify, try_finally.
  specialize (H (set_scope Scope_open tc)).
  destruct (m _) as [a tc1 | e tc1]; simpl in *;
    destruct H as (? & ? & ? & ?); repeat split; assumption.
Qed.

Lemma keeps_in_proc {A} decl (m : M TypeChecker A) :
  keeps same_outer m -> keeps same_context (in_proc decl m).
Proof.
  intros H tc. unfold in_proc, bind, gets, modify, try_finally, raise.
  destruct (proc tc) eqn:Hproc; [simpl; now repeat split |].
  specialize (H (set_scope Scope_open (set_proc (Some decl) tc))).
  destruct (m _) as [a tc1 | e tc1]; destruct H as (? & ? & ? & ?);
    unfold same_context, Scope_close, Scope_open in *; simpl in *;
    repeat split; congruence.
Qed.

Lemma keeps_for_statement stmt : keeps same_outer (for_statement stmt).
Proof.
  pose proof same_outer_set_reporter as Hrep.
  pose proof (keeps_check_local_bound same_outer) as Hbound.
  pose proof (keeps_check_local_free same_outer) as Hfree.
  pose proof (fun e et => keeps_context_outer _ (keeps_for_expression e et))
    as Hexpr.
  induction stmt using Statement_nested_ind; cbn [for_statement];
    repeat first
      [ apply Hbound; exact Hrep
      | apply Hfree; exact Hrep
      | apply Hexpr
      | apply keeps_context_outer, keeps_in_subscope
      | apply keeps_in_loop
      | apply keeps_for_each; keeps_tc; assumption
      | match goal with
        | IH : forall s, ?o = Some s -> _ |- keeps _ (for_statement ?s') =>
            apply IH; reflexivity
        end
      | keeps_step ].
Qed.

(** X6: checking a statement changes at most the innermost frame of the
    scope: the enclosing frames, the signature table, the loop counter and
    the enclosing procedure are as before, whether the check returns or
    raises, so the counter of a loop is restored on every way out. *)
Theorem for_statement_keeps_outer_frames stmt tc :
  let tc' := state_of (for_statement stmt tc) in
  tail (scope tc') = tail (scope tc) /\ procs tc' = procs tc /\
  loops tc' = loops tc /\ proc tc' = proc tc.
Proof. apply keeps_for_statement. Qed.

(** X7: a block leaves the scope exactly as it found it: what its
    statements declare is gone when the block is left, by its end or by an
    exception. *)
Theorem block_restores_scope position block tc :
  scope (state_of (for_statement (BlockStatement position block) tc))
  = scope tc.
Proof.
  cbn [for_statement].
  pose proof (keeps_in_subscope (for_each for_statement block)) as H.
  unfold bind.
  destruct (in_subscope (for_each for_statement block) tc) as [b tc1 | e tc1]
    eqn:Hrun;
    (assert (Hs : same_context tc tc1);
     [ pose proof (H ltac:(apply keeps_for_each; keeps_tc;
                           apply Forall_forall; intros;
                           apply keeps_for_statement) tc) as Hk;
       rewrite Hrun in Hk; exact Hk
     | apply Hs ]).
Qed.

Lemma keeps_for_parameters arguments :
  keeps same_outer (for_parameters arguments).
Proof.
  pose proof same_outer_set_reporter as Hrep.
  pose proof (keeps_check_local_free same_outer) as Hfree.
  induction arguments as [| [vname vtype_] arguments IH];
    cbn [for_parameters];
    repeat first [apply Hfree; exact Hrep | keeps_step].
Qed.

Lemma keeps_for_topdecl decl : keeps same_context (for_topdecl decl).
Proof.
  pose proof same_context_set_reporter as Hrep.
  pose proof same_outer_set_reporter as Hrep'.
  destruct decl as [p name init gtype | [p name args retty body] | p a t];
    cbn [for_topdecl].
  - repeat first [apply keeps_for_expression | keeps_step].
  - apply keeps_in_proc.
    repeat first [apply keeps_for_parameters | apply keeps_for_statement
                 | keeps_step].
  - keeps_step.
Qed.

(** X8: a pass over a program leaves the checker as it was but for the
    reporter: the scope is back to the frames it had, the loop counter and
    the enclosing procedure are restored, whether the pass ends or
    raises. *)
Theorem for_program_restores_checker prgm tc :
  let tc' := state_of (for_program prgm tc) in
  scope tc' = scope tc /\ procs tc' = procs tc /\
  loops tc' = loops tc /\ proc tc' = proc tc.
Proof.
  assert (H : keeps same_context (for_program prgm)).
  { apply keeps_for_each; keeps_tc. apply Forall_forall. intros.
    apply keeps_for_topdecl. }
  apply H.
Qed.

(** X9: no diagnostic is ever taken back: whether [check] returns or
    raises, the reporter it leaves is the one it was given followed by what
    the two passes recorded. *)
Theorem check_never_loses_diagnostics prgm r :
  exists ds, state_of (check prgm r) = r ++ ds.
Proof.
  unfold check, check_program, bind, ret.
  pose proof (grows_pretype prgm r) as [d1 H1].
  destruct (pretype prgm r) as [[scope procs] r1 | e r1]; simpl in H1.
  - pose proof (grows_for_program prgm (TypeChecker_init scope procs r1))
      as [d2 H2].
    unfold TypeChecker_check.
    destruct (for_program prgm _) as [prgm' tc | e tc]; simpl in *;
      exists (d1 ++ d2); now rewrite H2, H1, app_assoc.
  - exists d1. exact H1.
Qed.

(** ** Where the checker comes to its end *)

Lemma returns_ret {S A} (a : A) (s : S) : returns (ret a) s.
Proof. do 2 eexists. reflexivity. Qed.

Lemma returns_bind {S A B} (m : M S A) (k : A -> M S B) s :
  returns (bind m k) s <-> exists a s1, m s = Ok a s1 /\ returns (k a) s1.
Proof.
  unfold returns, bind. split.
  - intros (b & s' & H). destruct (m s) as [a s1 | e s1]; [| discriminate].
    eauto 6.
  - intros (a & s1 & -> & H). exact H.
Qed.

Lemma returns_bind_ret {S A B} (m : M S A) (g : A -> B) s :
  returns (do a <- m; ret (g a)) s <-> returns m s.
Proof.
  rewrite returns_bind. split.
  - intros (a & s1 & H & _). red. eauto.
  - intros (a & s1 & H). exists a, s1. split; [exact H | apply returns_ret].
Qed.

Lemma returns_bind_skip {S A B} (m : M S A) (k : A -> M S B) s (P : Prop) :
  returns m s ->
  (forall a s1, m s = Ok a s1 -> returns (k a) s1 <-> P) ->
  returns (bind m k) s <-> P.
Proof.
  intros (a & s1 & Hm) Hk. rewrite returns_bind. split.
  - intros (a' & s1' & Hm' & Hr). apply (Hk a' s1' Hm'), Hr.
  - intros HP. exists a, s1. split; [exact Hm |]. now apply (Hk a s1 Hm).
Qed.

Lemma returns_bind_and {S A B} (m : M S A) (k : A -> M S B) s
    (b1 b2 : bool) :
  (returns m s <-> b1 = true) ->
  (forall a s1, m s = Ok a s1 -> returns (k a) s1 <-> b2 = true) ->
  returns (bind m k) s <-> b1 && b2 = true.
Proof.
  intros Hm Hk. rewrite returns_bind, andb_true_iff. split.
  - intros (a & s1 & Hrun & Hr). split.
    + apply Hm. red. eauto.
    + apply (Hk a s1 Hrun), Hr.
  - intros [H1 H2]. apply Hm in H1 as (a & s1 & Hrun).
    exists a, s1. split; [exact Hrun |]. now apply (Hk a s1 Hrun).
Qed.

Lemma returns_report msg position tc : returns (report msg position) tc.
Proof. do 2 eexists. reflexivity. Qed.

Lemma returns_check_expected position type_ etype tc :
  returns (check_expected position type_ etype) tc.
Proof. unfold returns. rewrite check_expected_eq. eauto. Qed.

Lemma returns_check_local_free name tc : returns (check_local_free name) tc.
Proof.
  unfold check_local_free, returns, bind, gets.
  destruct (Scope_islocal _ _); do 2 eexists; reflexivity.
Qed.

(** The lookup that follows the membership test cannot miss. *)
Lemma returns_check_local_bound name tc :
  returns (check_local_bound name) tc.
Proof.
  unfold check_local_bound, scope_getitem, returns, bind, gets.
  destruct (Scope_contains (value name) (scope tc)) eqn:Hc; cbn [negb].
  - apply bool_decide_eq_true in Hc as [t Ht]. rewrite Ht.
    do 2 eexists. reflexivity.
  - do 2 eexists. reflexivity.
Qed.

Section ReturningLoops.
Context {S A T : Type}.

Lemma for_each_returns (f : A -> M S A) (c : A -> bool) xs :
  Forall (fun x => forall s, returns (f x) s <-> c x = true) xs ->
  forall s, returns (for_each f xs) s <-> forallb c xs = true.
Proof.
  induction 1 as [| x xs Hx _ IH]; intros s; cbn [for_each forallb].
  - split; [reflexivity | intros _; apply returns_ret].
  - rewrite returns_bind, andb_true_iff. split.
    + intros (x' & s1 & Hfx & Hrest).
      apply returns_bind in Hrest as (xs' & s2 & Hxs & _).
      split; [apply (Hx s) | apply (IH s1)]; red; eauto.
    + intros [Hcx Hcxs]. apply (Hx s) in Hcx as (x' & s1 & Hfx).
      exists x', s1. split; [exact Hfx |].
      apply returns_bind. apply (IH s1) in Hcxs as (xs' & s2 & Hxs).
      exists xs', s2. split; [exact Hxs | apply returns_ret].
Qed.

Variable f : A -> option T -> M S A.
Variable c : A -> bool.

Lemma for_zip_returns atypes arguments :
  Forall (fun a => forall et s, returns (f a et) s <-> c a = true)
    arguments ->
  forall s, returns (for_zip f atypes arguments) s <->
            forallb_zip c atypes arguments = true.
Proof.
  intros H. revert atypes.
  induction H as [| a arguments Ha _ IH]; intros [| t atypes] s;
    cbn [for_zip forallb_zip];
    try (split; [reflexivity | intros _; apply returns_ret]).
  rewrite returns_bind, andb_true_iff. split.
  - intros (a' & s1 & Hfa & Hrest).
    apply returns_bind in Hrest as (rest & s2 & Hxs & _).
    split; [apply (Ha (Some t) s) | apply (IH atypes s1)]; red; eauto.
  - intros [Hca Hrest]. apply (Ha (Some t) s) in Hca as (a' & s1 & Hfa).
    exists a', s1. split; [exact Hfa |].
    apply returns_bind. apply (IH atypes s1) in Hrest as (rest & s2 & Hxs).
    exists rest, s2. split; [exact Hxs | apply returns_ret].
Qed.

Lemma for_enumerate_returns atypes i arguments :
  Forall (fun a => forall et s, returns (f a et) s <-> c a = true)
    arguments ->
  forall s, returns (for_enumerate f atypes i arguments) s <->
            forallb c arguments = true.
Proof.
  intros H. revert i.
  induction H as [| a arguments Ha _ IH]; intros i s;
    cbn [for_enumerate forallb].
  - split; [reflexivity | intros _; apply returns_ret].
  - rewrite returns_bind, andb_true_iff. split.
    + intros (a' & s1 & Hfa & Hrest).
      apply returns_bind in Hrest as (rest & s2 & Hxs & _).
      split; [apply (Ha (atypes !! i) s) | apply (IH (Datatypes.S i) s1)];
        red; eauto.
    + intros [Hca Hrest].
      apply (Ha (atypes !! i) s) in Hca as (a' & s1 & Hfa).
      exists a', s1. split; [exact Hfa |].
      apply returns_bind.
      apply (IH (Datatypes.S i) s1) in Hrest as (rest & s2 & Hxs).
      exists rest, s2. split; [exact Hxs | apply returns_ret].
Qed.
End ReturningLoops.

Lemma for_expression_returns_iff expr :
  forall etype tc,
    returns (for_expression expr etype) tc <-> completes_expression expr = true.
Proof.
  induction expr as [position type_ node IH] using Expression_nested_ind.
  intros etype tc. cbn [for_expression completes_expression].
  assert (Hend : forall (t : option Type_) n tc1,
    returns (check_expected position t etype ;; ret (Expr position t n)) tc1).
  { intros t n tc1. apply returns_bind.
    destruct (returns_check_expected position t etype tc1) as ([] & tc2 & H).
    exists tt, tc2. split; [exact H | apply returns_ret]. }
  rewrite returns_bind.
  assert (Hinner : forall (m : M TypeChecker (option Type_ * ExprNode Expression)),
    (exists a s1, m tc = Ok a s1 /\
       returns (let (t, n) := a in
                check_expected position t etype ;;
                ret (Expr position t n)) s1) <-> returns m tc).
  { intros m. split.
    - intros (a & s1 & H & _). red. eauto.
    - intros ([t n] & s1 & H). exists (t, n), s1. split; [exact H | apply Hend]. }
  rewrite Hinner. clear Hinner Hend.
  destruct node; cbn [children] in IH;
    try match goal with
        | |- returns (raise _) _ <-> false = true =>
            split; [intros (? & ? & [=]) | discriminate]
        end.
  - (* variable *)
    split; [reflexivity | intros _].
    unfold check_local_bound, scope_getitem, returns, bind, gets, ret.
    destruct (Scope_contains (value name) (scope tc)) eqn:Hc; cbn [negb].
    + apply bool_decide_eq_true in Hc as [t0 Ht0].
      rewrite Ht0. cbn beta iota. rewrite Ht0. do 2 eexists. reflexivity.
    + do 2 eexists. reflexivity.
  - split; [reflexivity | intros _; apply returns_ret].
  - split; [reflexivity | intros _].
    unfold check_integer_constant_range. apply returns_bind.
    destruct (negb (in_int64_range ivalue)).
    + do 2 eexists. split; [reflexivity | apply returns_ret].
    + do 2 eexists. split; [reflexivity | apply returns_ret].
  - (* operator *)
    destruct (SIGS !! operator) as [opsig |];
      [| split; [intros (? & ? & [=]) | discriminate]].
    rewrite <- (for_zip_returns for_expression completes_expression
                  opsig.1 arguments IH tc).
    rewrite returns_bind. split.
    + intros (a & s1 & H & _). red. eauto.
    + intros (a & s1 & H). exists a, s1. split; [exact H | apply returns_ret].
  - (* call *)
    apply returns_bind_skip; [do 2 eexists; reflexivity |].
    intros ps s1 [= <- <-].
    apply returns_bind_skip.
    { destruct (procs tc !! value proc0) as [[atypes retty] |].
      - destruct (negb (bool_decide (length atypes = length arguments)));
          do 2 eexists; reflexivity.
      - do 2 eexists; reflexivity. }
    intros [atypes retty] s2 _. rewrite returns_bind_ret.
    now apply for_enumerate_returns.
  - (* print *)
    apply Forall_cons in IH as [IHe _].
    rewrite <- (IHe None tc), returns_bind. split.
    + intros (a & s1 & H & _). red. eauto.
    + intros (a & s1 & H). exists a, s1. split; [exact H |].
      apply returns_bind.
      destruct (expr_type a) as [t |];
        [destruct (negb _) |]; do 2 eexists;
        (split; [reflexivity | apply returns_ret]).
  - (* dereference *)
    split; [| discriminate].
    intros (a & s1 & H). apply bind_Ok_inv in H as (? & ? & _ & [=]).
  - (* indexing *)
    split; [| discriminate].
    intros (a & s1 & H). apply bind_Ok_inv in H as (? & ? & _ & [=]).
Qed.

(** X10: whether the check of an expression comes to its end depends on
    the expression alone, not on the state of the checker nor on the
    expected type: it returns exactly on the expressions built from
    variables, literals, applications of the operators of the table, calls
    and prints, and raises on every other one.  A variable that is not
    bound, a procedure that is not known and a wrong number of arguments
    are diagnostics, never exceptions. *)
Theorem for_expression_returns_exactly expr etype tc :
  (exists expr' tc', for_expression expr etype tc = Ok expr' tc') <->
  completes_expression expr = true.
Proof. apply for_expression_returns_iff. Qed.

Lemma returns_try_finally {S A} (m : M S A) cleanup s :
  returns (try_finally m cleanup) s <-> returns m s.
Proof.
  unfold returns, try_finally.
  destruct (m s); split; intros (? & ? & [=]); eauto.
Qed.

Lemma returns_in_subscope {A} (m : M TypeChecker A) tc :
  returns (in_subscope m) tc <-> returns m (set_scope Scope_open tc).
Proof.
  unfold in_subscope. rewrite returns_bind. split.
  - intros ([] & s1 & [= <-] & H). now apply returns_try_finally in H.
  - intros H. exists tt, (set_scope Scope_open tc).
    split; [reflexivity | now apply returns_try_finally].
Qed.

Lemma returns_in_loop {A} (m : M TypeChecker A) tc :
  returns (in_loop m) tc <-> returns m (set_loops (fun n => n + 1) tc).
Proof.
  unfold in_loop. rewrite returns_bind. split.
  - intros ([] & s1 & [= <-] & H). now apply returns_try_finally in H.
  - intros H. exists tt, (set_loops (fun n => n + 1) tc).
    split; [reflexivity | now apply returns_try_finally].
Qed.

(** [for_each] under an invariant of the state that each step keeps. *)
Lemma for_each_returns_under {S A} (Inv : S -> Prop) (f : A -> M S A)
    (c : A -> bool) xs :
  (forall x s, Inv s -> Inv (state_of (f x s))) ->
  Forall (fun x => forall s, Inv s -> returns (f x) s <-> c x = true) xs ->
  forall s, Inv s -> returns (for_each f xs) s <-> forallb c xs = true.
Proof.
  intros Hinv. induction 1 as [| x xs Hx _ IH]; intros s Hs;
    cbn [for_each forallb].
  - split; [reflexivity | intros _; apply returns_ret].
  - apply returns_bind_and; [now apply Hx |].
    intros x' s1 Hrun. rewrite returns_bind_ret. apply IH.
    specialize (Hinv x s Hs). now rewrite Hrun in Hinv.
Qed.

Lemma proc_after_expression expr etype tc expr' tc' :
  for_expression expr etype tc = Ok expr' tc' -> proc tc' = proc tc.
Proof.
  intros H. pose proof (keeps_for_expression expr etype tc) as Hk.
  rewrite H in Hk. apply Hk.
Qed.

Lemma proc_after_statement stmt tc :
  proc (state_of (for_statement stmt tc)) = proc tc.
Proof. apply keeps_for_statement. Qed.

Lemma for_statement_returns_iff stmt :
  forall tc, is_Some (proc tc) ->
    returns (for_statement stmt) tc <-> completes_statement stmt = true.
Proof.
  induction stmt using Statement_nested_ind; intros tc Hproc;
    cbn [for_statement completes_statement].
  - (* local declaration *)
    apply returns_bind_skip; [apply returns_check_local_free |].
    intros free s1 _. apply returns_bind_skip.
    { destruct free; do 2 eexists; reflexivity. }
    intros [] s2 _. rewrite returns_bind_ret.
    apply for_expression_returns_iff.
  - (* assignment *)
    destruct l as [name | a].
    + apply returns_bind_skip; [apply returns_check_local_bound |].
      intros lhstype s1 _. rewrite returns_bind_ret.
      apply for_expression_returns_iff.
    + split; [intros (? & ? & [=]) | discriminate].
  - rewrite returns_bind_ret. apply for_expression_returns_iff.
  - rewrite returns_bind_ret. apply for_expression_returns_iff.
  - (* block *)
    rewrite returns_bind_ret, returns_in_subscope.
    apply (for_each_returns_under (fun s => is_Some (proc s)));
      [| | exact Hproc].
    + intros x s Hs. now rewrite proc_after_statement.
    + exact H.
  - (* if *)
    rewrite <- andb_assoc.
    apply returns_bind_and; [apply for_expression_returns_iff |].
    intros c' s1 Hc. apply proc_after_expression in Hc.
    assert (Hp1 : is_Some (proc s1)) by now rewrite Hc.
    apply returns_bind_and; [now apply IHstmt |].
    intros t' s2 Ht.
    assert (Hp2 : is_Some (proc s2)).
    { pose proof (proc_after_statement stmt s1) as Hk.
      rewrite Ht in Hk. simpl in Hk. now rewrite Hk. }
    rewrite returns_bind_ret.
    destruct iffalse as [s |].
    + rewrite returns_bind_ret. now apply H.
    + split; [reflexivity | intros _; apply returns_ret].
  - (* while *)
    apply returns_bind_and; [apply for_expression_returns_iff |].
    intros c' s1 Hc. apply proc_after_expression in Hc.
    rewrite returns_bind_ret, returns_in_loop. apply IHstmt.
    simpl. now rewrite Hc.
  - (* break *)
    split; [reflexivity | intros _].
    unfold returns, bind, gets.
    destruct (bool_decide (loops tc = 0)); do 2 eexists; reflexivity.
  - (* continue *)
    split; [reflexivity | intros _].
    unfold returns, bind, gets.
    destruct (bool_decide (loops tc = 0)); do 2 eexists; reflexivity.
  - (* return *)
    destruct Hproc as [pd Hp]. unfold returns, bind, gets. rewrite Hp.
    destruct e as [e |]; cbn [is_Some].
    + split; [intros _; now apply bool_decide_eq_true_2 | intros _].
      destruct (bool_decide (rettype pd = None)); do 2 eexists; reflexivity.
    + split; [| intros Hn; apply bool_decide_eq_true in Hn as [? [=]]].
      destruct (bool_decide (is_Some (rettype pd)));
        intros (? & ? & [=]).
Qed.

(** X11: inside a procedure the check of a statement comes to its end
    exactly when the statement holds no return without a value and no
    assignment to an [Assignable], and every expression it checks is one
    that completes; the value of a return is never looked at, so it cannot
    make the check raise. *)
Theorem for_statement_returns_exactly stmt tc :
  is_Some (proc tc) ->
  (exists stmt' tc', for_statement stmt tc = Ok stmt' tc') <->
  completes_statement stmt = true.
Proof. apply for_statement_returns_iff. Qed.

Lemma for_statement_returns_exactly_witness :
  (exists stmt' tc',
     for_statement
       (ReturnStatement None (Some (Samples.expr NullExpression)))
       (set_proc (Some Samples.function_without_return) Samples.fresh)
     = Ok stmt' tc') <->
  completes_statement
    (ReturnStatement None (Some (Samples.expr NullExpression))) = true.
Proof.
  apply (for_statement_returns_exactly
           (ReturnStatement None (Some (Samples.expr NullExpression)))
           (set_proc (Some Samples.function_without_return) Samples.fresh)).
  simpl. eauto.
Defined.

Lemma returns_for_parameters arguments tc :
  returns (for_parameters arguments) tc.
Proof.
  revert tc. induction arguments as [| [vname vtype_] arguments IH];
    intros tc; cbn [for_parameters]; [apply returns_ret |].
  apply returns_bind.
  destruct (returns_check_local_free vname tc) as (free & tc1 & Hfree).
  exists free, tc1. split; [exact Hfree |].
  apply returns_bind. destruct free.
  - do 2 eexists. split; [reflexivity | apply IH].
  - do 2 eexists. split; [reflexivity | apply IH].
Qed.

Lemma proc_after_parameters arguments tc :
  proc (state_of (for_parameters arguments tc)) = proc tc.
Proof. apply keeps_for_parameters. Qed.

Lemma for_topdecl_returns_iff decl tc :
  proc tc = None ->
  returns (for_topdecl decl) tc <-> completes_topdecl decl = true.
Proof.
  intros Hproc.
  destruct decl as [p name init gtype | [p name args retty body] | p a t];
    cbn [for_topdecl completes_topdecl proc_body].
  - rewrite <- (for_expression_returns_iff init (Some gtype) tc),
      returns_bind.
    split.
    + intros (a & s1 & H & _). red. eauto.
    + intros (a & s1 & H). exists a, s1. split; [exact H |].
      apply returns_bind. destruct (negb (check_constant a));
        do 2 eexists; (split; [reflexivity | apply returns_ret]).
  - unfold in_proc. apply returns_bind_skip; [do 2 eexists; reflexivity |].
    intros p0 s1 [= <- <-]. rewrite Hproc.
    apply returns_bind_skip; [do 2 eexists; reflexivity |].
    intros [] s2 [= <-].
    apply returns_bind_skip; [do 2 eexists; reflexivity |].
    intros [] s3 [= <-]. rewrite returns_try_finally.
    apply returns_bind_skip; [apply returns_for_parameters |].
    intros [] s4 Hparams.
    assert (Hp4 : is_Some (proc s4)).
    { pose proof (proc_after_parameters args
                    (set_scope Scope_open
                       (set_proc
                          (Some (mkProcDecl p name args retty body)) tc)))
        as Hk.
      rewrite Hparams in Hk. simpl in Hk. rewrite Hk. eauto. }
    rewrite <- (for_statement_returns_iff body s4 Hp4), returns_bind.
    split.
    + intros (a & s5 & H & _). red. eauto.
    + intros (a & s5 & H). exists a, s5. split; [exact H |].
      apply returns_bind.
      destruct retty; [destruct (negb (has_return a)) |];
        do 2 eexists; (split; [reflexivity | apply returns_ret]).
  - split; [reflexivity | intros _; apply returns_ret].
Qed.

Lemma for_program_returns_iff prgm tc :
  proc tc = None ->
  returns (for_program prgm) tc <-> forallb completes_topdecl prgm = true.
Proof.
  intros Hproc. unfold for_program.
  apply (for_each_returns_under (fun s => proc s = None));
    [| | exact Hproc].
  - intros decl s Hs.
    destruct (keeps_for_topdecl decl s) as (_ & _ & _ & Hk). congruence.
  - apply Forall_forall. intros decl _ s Hs.
    now apply for_topdecl_returns_iff.
Qed.

Lemma pretype_returns_iff prgm r :
  returns (pretype prgm) r <-> existsb is_typedef prgm = false.
Proof.
  unfold pretype. split.
  - intros Hret. destruct (existsb is_typedef prgm) eqn:Hex; [| reflexivity].
    destruct (pretype_loop_raises prgm Scope_new ∅ r Hex) as (r' & Hloop).
    destruct Hret as (a & s & Hrun). unfold bind in Hrun.
    rewrite Hloop in Hrun. discriminate.
  - intros Hex.
    destruct (pretype_loop_returns prgm Scope_new ∅ r Hex)
      as (scope' & procs' & r1 & Hloop).
    apply returns_bind. exists (scope', procs'), r1.
    split; [exact Hloop |]. apply returns_bind.
    destruct (procs' !! "main") as [sig |];
      [destruct (SigType_is_main sig) |];
      do 2 eexists; (split; [reflexivity | apply returns_ret]).
Qed.

(** X12: [check] returns a boolean exactly on the programs that hold no
    type alias and whose global initialisers and procedure bodies are
    made of statements and expressions that complete; on every other
    program it raises.  A type alias alone makes the PreTyper fail, what
    the TypeChecker would do with it never matters. *)
Theorem check_returns_exactly prgm r :
  (exists b r', check prgm r = Ok b r') <->
  existsb is_typedef prgm = false /\
  forallb completes_topdecl prgm = true.
Proof.
  unfold check, check_program, TypeChecker_check, bind, ret.
  pose proof (pretype_returns_iff prgm r) as Hpre. unfold returns in Hpre.
  destruct (pretype prgm r) as [[scope procs] r1 | e r1].
  - pose proof (for_program_returns_iff prgm
                  (TypeChecker_init scope procs r1) eq_refl) as Hpass.
    unfold returns in Hpass.
    destruct (for_program prgm _) as [prgm' tc | e tc].
    + split; [intros _ | eauto].
      split; [apply Hpre | apply Hpass]; eauto.
    + split; [intros (? & ? & [=]) |].
      intros [_ Hall]. apply Hpass in Hall as (? & ? & [=]).
  - split; [intros (? & ? & [=]) |].
    intros [Hex _]. apply Hpre in Hex as (? & ? & [=]).
Qed.

(** ** Checking again what was checked *)

Section RecheckLoops.
Context {S A T : Type}.

Lemma for_each_recheck (f : A -> M S A) xs :
  Forall (fun x => forall s x' s', f x s = Ok x' s' ->
                   forall s2, f x' s2 = f x s2) xs ->
  forall s xs' s', for_each f xs s = Ok xs' s' ->
  forall s2, for_each f xs' s2 = for_each f xs s2.
Proof.
  induction 1 as [| x xs Hx _ IH]; intros s xs' s' Hrun s2;
    cbn [for_each] in Hrun.
  - now injection Hrun as <- _.
  - apply bind_Ok_inv in Hrun as (x1 & s1 & Hfx & Hrun).
    apply bind_Ok_inv in Hrun as (xs1 & s3 & Hxs & Hrun).
    injection Hrun as <- _. cbn [for_each]. unfold bind.
    rewrite (Hx _ _ _ Hfx s2). destruct (f x s2) as [x2 s4 | e s4];
      [| reflexivity].
    now rewrite (IH _ _ _ Hxs s4).
Qed.

Variable f : A -> option T -> M S A.

Let rechecks (a : A) : Prop :=
  forall et s a' s', f a et s = Ok a' s' ->
  forall et2 s2, f a' et2 s2 = f a et2 s2.

Lemma for_zip_recheck atypes arguments :
  Forall rechecks arguments ->
  forall s arguments' s', for_zip f atypes arguments s = Ok arguments' s' ->
  forall s2, for_zip f atypes arguments' s2 = for_zip f atypes arguments s2.
Proof.
  intros H. revert atypes.
  induction H as [| a arguments Ha _ IH]; intros [| t atypes] s args' s' Hrun s2;
    cbn [for_zip] in Hrun; try (now injection Hrun as <- _).
  apply bind_Ok_inv in Hrun as (a1 & s1 & Hfa & Hrun).
  apply bind_Ok_inv in Hrun as (rest1 & s3 & Hrest & Hrun).
  injection Hrun as <- _. cbn [for_zip]. unfold bind.
  rewrite (Ha _ _ _ _ Hfa (Some t) s2).
  destruct (f a (Some t) s2) as [a2 s4 | e s4]; [| reflexivity].
  now rewrite (IH _ _ _ _ Hrest s4).
Qed.

Lemma for_enumerate_recheck atypes i arguments :
  Forall rechecks arguments ->
  forall s arguments' s',
    for_enumerate f atypes i arguments s = Ok arguments' s' ->
  forall atypes2 s2,
    for_enumerate f atypes2 i arguments' s2
    = for_enumerate f atypes2 i arguments s2.
Proof.
  intros H. revert i.
  induction H as [| a arguments Ha _ IH]; intros i s args' s' Hrun atypes2 s2;
    cbn [for_enumerate] in Hrun; try (now injection Hrun as <- _).
  apply bind_Ok_inv in Hrun as (a1 & s1 & Hfa & Hrun).
  apply bind_Ok_inv in Hrun as (rest1 & s3 & Hrest & Hrun).
  injection Hrun as <- _. cbn [for_enumerate]. unfold bind.
  rewrite (Ha _ _ _ _ Hfa (atypes2 !! i) s2).
  destruct (f a (atypes2 !! i) s2) as [a2 s4 | e s4]; [| reflexivity].
  now rewrite (IH _ _ _ _ Hrest atypes2 s4).
Qed.

Lemma for_enumerate_length atypes i arguments s arguments' s' :
  for_enumerate f atypes i arguments s = Ok arguments' s' ->
  length arguments' = length arguments.
Proof.
  revert i s arguments' s'.
  induction arguments as [| a arguments IH]; intros i s args' s' Hrun;
    cbn [for_enumerate] in Hrun.
  - now injection Hrun as <- _.
  - apply bind_Ok_inv in Hrun as (a1 & s1 & _ & Hrun).
    apply bind_Ok_inv in Hrun as (rest1 & s3 & Hrest & Hrun).
    injection Hrun as <- _. simpl. f_equal. eauto.
Qed.
End RecheckLoops.

Lemma for_expression_recheck expr :
  forall etype tc expr' tc',
    for_expression expr etype tc = Ok expr' tc' ->
    forall etype2 tc2,
      for_expression expr' etype2 tc2 = for_expression expr etype2 tc2.
Proof.
  induction expr as [position type_ node IH] using Expression_nested_ind.
  intros etype tc expr' tc' Hrun etype2 tc2.
  cbn [for_expression] in Hrun.
  apply bind_Ok_inv in Hrun as ([t n] & tc1 & Hnode & Hrun).
  apply bind_Ok_inv in Hrun as ([] & tc3 & _ & Hrun).
  injection Hrun as <- _.
  destruct node; cbn [children] in IH; try discriminate Hnode.
  - (* variable *)
    apply bind_Ok_inv in Hnode as (b & s1 & _ & Hnode).
    destruct b; ok_inv; reflexivity.
  - injection Hnode as <- <- _. reflexivity.
  - apply bind_Ok_inv in Hnode as (b & s1 & _ & Hnode).
    injection Hnode as <- <- _. reflexivity.
  - (* operator *)
    destruct (SIGS !! operator) as [opsig |] eqn:Hsig; [| discriminate].
    apply bind_Ok_inv in Hnode as (args' & s1 & Hargs & Hnode).
    injection Hnode as <- <- _.
    cbn [for_expression]. rewrite Hsig. unfold bind.
    now rewrite (for_zip_recheck for_expression _ _ IH _ _ _ Hargs tc2).
  - (* call *)
    apply bind_Ok_inv in Hnode as (ps & s1 & _ & Hnode).
    apply bind_Ok_inv in Hnode as ([atypes retty] & s2 & _ & Hnode).
    apply bind_Ok_inv in Hnode as (args' & s3 & Hargs & Hnode).
    injection Hnode as <- <- _.
    cbn [for_expression].
    rewrite (for_enumerate_length _ _ _ _ _ _ _ Hargs).
    unfold bind, gets, ret, report, modify.
    destruct (procs tc2 !! value proc0) as [[atypes2 retty2] |].
    + destruct (negb (bool_decide (length atypes2 = length arguments)));
        now rewrite (for_enumerate_recheck for_expression _ _ _ IH _ _ _
                       Hargs).
    + now rewrite (for_enumerate_recheck for_expression _ _ _ IH _ _ _ Hargs).
  - (* print *)
    apply Forall_cons in IH as [IHe _].
    apply bind_Ok_inv in Hnode as (e' & s1 & He & Hnode).
    apply bind_Ok_inv in Hnode as ([] & s2 & _ & Hnode).
    injection Hnode as <- <- _.
    cbn [for_expression]. unfold bind.
    now rewrite (IHe _ _ _ _ He None tc2).
  - (* dereference *)
    apply bind_Ok_inv in Hnode as (? & ? & _ & [=]).
  - (* indexing *)
    apply bind_Ok_inv in Hnode as (? & ? & _ & [=]).
Qed.

(** X13: checking reads no type slot but the one it has just written.
    The annotated expression that a completed check returns is checked, in
    any state and against any expected type, exactly as the expression it
    came from; in particular checking it again from the same state gives
    the same annotations and the same diagnostics. *)
Theorem for_expression_recheck_same expr etype tc expr' tc' :
  for_expression expr etype tc = Ok expr' tc' ->
  (forall etype2 tc2,
     for_expression expr' etype2 tc2 = for_expression expr etype2 tc2) /\
  for_expression expr' etype tc = Ok expr' tc'.
Proof.
  intros Hrun. split.
  - exact (for_expression_recheck _ _ _ _ _ Hrun).
  - now rewrite (for_expression_recheck _ _ _ _ _ Hrun).
Qed.

Lemma for_expression_recheck_same_witness :
  (forall etype2 tc2,
     for_expression
       (Expr None (Some (Basic VOID))
          (PrintExpression (Expr None (Some (Basic INT)) (IntExpression 1))))
       etype2 tc2
     = for_expression
         (Samples.expr (PrintExpression (Samples.expr (IntExpression 1))))
         etype2 tc2) /\
  for_expression
    (Expr None (Some (Basic VOID))
       (PrintExpression (Expr None (Some (Basic INT)) (IntExpression 1))))
    None Samples.fresh
  = Ok (Expr None (Some (Basic VOID))
          (PrintExpression (Expr None (Some (Basic INT)) (IntExpression 1))))
       Samples.fresh.
Proof.
  exact (for_expression_recheck_same
           (Samples.expr (PrintExpression (Samples.expr (IntExpression 1))))
           None Samples.fresh _ _ eq_refl).
Defined.

Lemma for_statement_recheck stmt :
  forall tc stmt' tc',
    for_statement stmt tc = Ok stmt' tc' ->
    forall tc2, for_statement stmt' tc2 = for_statement stmt tc2.
Proof.
  induction stmt using Statement_nested_ind; intros tc stmt' tc' Hrun tc2;
    cbn [for_statement] in Hrun.
  - apply bind_Ok_inv in Hrun as (free & s1 & _ & Hrun).
    apply bind_Ok_inv in Hrun as ([] & s2 & _ & Hrun).
    apply bind_Ok_inv in Hrun as (init' & s3 & Hinit & Hrun).
    injection Hrun as <- _. cbn [for_statement]. unfold bind.
    destruct (check_local_free n tc2) as [[] s4 | e s4]; [| | reflexivity];
      unfold modify, ret;
      now rewrite (for_expression_recheck _ _ _ _ _ Hinit).
  - apply bind_Ok_inv in Hrun as (lhstype & s1 & _ & Hrun).
    apply bind_Ok_inv in Hrun as (rhs' & s2 & Hrhs & Hrun).
    injection Hrun as <- _. cbn [for_statement]. unfold bind.
    destruct l as [name | a]; [| reflexivity].
    destruct (check_local_bound name tc2) as [lt s3 | e3 s3]; [| reflexivity].
    now rewrite (for_expression_recheck _ _ _ _ _ Hrhs).
  - apply bind_Ok_inv in Hrun as (e' & s1 & He & Hrun).
    injection Hrun as <- _. cbn [for_statement]. unfold bind.
    now rewrite (for_expression_recheck _ _ _ _ _ He).
  - apply bind_Ok_inv in Hrun as (e' & s1 & He & Hrun).
    injection Hrun as <- _. cbn [for_statement]. unfold bind.
    now rewrite (for_expression_recheck _ _ _ _ _ He).
  - (* block *)
    apply bind_Ok_inv in Hrun as (block' & s1 & Hblock & Hrun).
    injection Hrun as <- _.
    apply in_subscope_Ok_inv in Hblock as (s2 & Hblock).
    cbn [for_statement]. unfold in_subscope, bind, modify, try_finally.
    now rewrite (for_each_recheck for_statement _ H _ _ _ Hblock).
  - (* if *)
    apply bind_Ok_inv in Hrun as (c' & s1 & Hc & Hrun).
    apply bind_Ok_inv in Hrun as (t' & s2 & Ht & Hrun).
    apply bind_Ok_inv in Hrun as (f' & s3 & Hf & Hrun).
    injection Hrun as <- _.
    destruct iffalse as [s |].
    + apply bind_Ok_inv in Hf as (s' & s6 & Hs & Hf).
      injection Hf as <- _.
      cbn [for_statement]. unfold bind.
      rewrite (for_expression_recheck _ _ _ _ _ Hc).
      destruct (for_expression c _ tc2) as [c2 s4 | e s4]; [| reflexivity].
      rewrite (IHstmt _ _ _ Ht).
      destruct (for_statement stmt s4) as [t2 s5 | e s5]; [| reflexivity].
      match goal with
      | IH : forall s0, Some s = Some s0 -> _ |- _ =>
          now rewrite (IH s eq_refl _ _ _ Hs)
      end.
    + injection Hf as <- _.
      cbn [for_statement]. unfold bind.
      rewrite (for_expression_recheck _ _ _ _ _ Hc).
      destruct (for_expression c _ tc2) as [c2 s4 | e s4]; [| reflexivity].
      now rewrite (IHstmt _ _ _ Ht).
  - (* while *)
    apply bind_Ok_inv in Hrun as (c' & s1 & Hc & Hrun).
    apply bind_Ok_inv in Hrun as (b' & s2 & Hb & Hrun).
    injection Hrun as <- _.
    apply in_loop_Ok_inv in Hb as (s3 & s4 & Hb).
    cbn [for_statement]. unfold in_loop, bind, modify, try_finally.
    rewrite (for_expression_recheck _ _ _ _ _ Hc).
    destruct (for_expression c _ tc2) as [c2 s5 | e s5]; [| reflexivity].
    now rewrite (IHstmt _ _ _ Hb).
  - ok_inv. reflexivity.
  - ok_inv. reflexivity.
  - apply bind_Ok_inv in Hrun as (pd & s1 & _ & Hrun).
    destruct pd as [pd |]; [| discriminate].
    destruct e; ok_inv; reflexivity.
Qed.

(** X14: the same for statements: the annotated statement that a
    completed check returns is checked in any state exactly as the
    statement it came from, and checking it again from the same state
    gives the same annotations, scope and diagnostics. *)
Theorem for_statement_recheck_same stmt tc stmt' tc' :
  for_statement stmt tc = Ok stmt' tc' ->
  (forall tc2, for_statement stmt' tc2 = for_statement stmt tc2) /\
  for_statement stmt' tc = Ok stmt' tc'.
Proof.
  intros Hrun. split.
  - exact (for_statement_recheck _ _ _ _ Hrun).
  - now rewrite (for_statement_recheck _ _ _ _ Hrun).
Qed.

Lemma for_statement_recheck_same_witness :
  (forall tc2,
     for_statement
       (PrintStatement None (Expr None (Some (Basic INT)) (IntExpression 1)))
       tc2
     = for_statement
         (PrintStatement None (Samples.expr (IntExpression 1))) tc2) /\
  for_statement
    (PrintStatement None (Expr None (Some (Basic INT)) (IntExpression 1)))
    Samples.fresh
  = Ok (PrintStatement None (Expr None (Some (Basic INT)) (IntExpression 1)))
       Samples.fresh.
Proof.
  exact (for_statement_recheck_same
           (PrintStatement None (Samples.expr (IntExpression 1)))
           Samples.fresh _ _ eq_refl).
Defined.

(** ** Break and continue inside a loop *)

#[local] Instance quiet_in_loop_preorder : PreOrder quiet_in_loop.
Proof.
  split.
  - intros tc. split; [reflexivity |]. exists [].
    split; [now rewrite app_nil_r | constructor].
  - intros a b c [Hl1 (d1 & Hr1 & Hq1)] [Hl2 (d2 & Hr2 & Hq2)].
    split; [congruence |]. exists (d1 ++ d2).
    split; [now rewrite Hr2, Hr1, app_assoc |].
    intros Hpos. apply Forall_app. split; [now apply Hq1 |].
    apply Hq2. now rewrite Hl1.
Qed.

Lemma keeps_try_finally {S A} (R : relation S) `{!PreOrder R}
    (m : M S A) (cleanup : S -> S) :
  keeps R m -> (forall s, R s (cleanup s)) -> keeps R (try_finally m cleanup).
Proof.
  intros Hm Hc s. specialize (Hm s). unfold try_finally.
  destruct (m s) as [a s1 | e s1]; simpl in *;
    (etransitivity; [exact Hm | apply Hc]).
Qed.

Lemma quiet_same_context tc tc' :
  loops tc' = loops tc -> reporter tc' = reporter tc -> quiet_in_loop tc tc'.
Proof.
  intros Hl Hr. split; [exact Hl |]. exists [].
  split; [now rewrite app_nil_r | constructor].
Qed.

Lemma quiet_report msg position :
  msg <> break_message -> keeps quiet_in_loop (report msg position).
Proof.
  intros Hmsg tc. split; [reflexivity |].
  exists [mkDiagnostic msg position]. split; [reflexivity |].
  intros _. constructor; [exact Hmsg | constructor].
Qed.

#[local] Instance never_break_preorder : PreOrder never_break.
Proof.
  split.
  - intros tc. exists []. split; [now rewrite app_nil_r | constructor].
  - intros a b c (d1 & Hr1 & Hq1) (d2 & Hr2 & Hq2). exists (d1 ++ d2).
    split; [now rewrite Hr2, Hr1, app_assoc | now apply Forall_app].
Qed.

Lemma never_break_report msg position :
  msg <> break_message -> keeps never_break (report msg position).
Proof.
  intros Hmsg tc. exists [mkDiagnostic msg position].
  split; [reflexivity | constructor; [exact Hmsg | constructor]].
Qed.

Ltac quiet_step :=
  match goal with
  | |- keeps quiet_in_loop (report _ _) => apply quiet_report; discriminate
  | |- keeps never_break (report _ _) =>
      apply never_break_report; discriminate
  | |- keeps quiet_in_loop (modify (set_scope _)) =>
      apply keeps_modify; keeps_tc; intros ?;
      apply quiet_same_context; reflexivity
  | |- _ => keeps_step
  end.

(** No diagnostic of an expression is the message of a misplaced
    [break]. *)
Lemma never_break_for_expression expr :
  forall etype, keeps never_break (for_expression expr etype).
Proof.
  induction expr as [position type_ node IH] using Expression_nested_ind.
  intros etype.
  destruct node; cbn [for_expression children] in *;
    unfold check_local_bound, scope_getitem, check_integer_constant_range,
      check_expected;
    repeat match goal with
           | H : Forall _ (_ :: _) |- _ => apply Forall_cons in H as [? ?]
           end;
    repeat first
      [ apply keeps_for_zip; keeps_tc; assumption
      | apply keeps_for_enumerate; keeps_tc; assumption
      | match goal with H : forall et, keeps _ _ |- _ => apply H end
      | quiet_step ].
Qed.

Lemma quiet_for_expression expr etype :
  keeps quiet_in_loop (for_expression expr etype).
Proof.
  intros tc.
  destruct (never_break_for_expression expr etype tc) as (ds & Hr & Hq).
  destruct (keeps_for_expression expr etype tc) as (_ & _ & Hl & _).
  split; [exact Hl |]. exists ds. split; [exact Hr | intros _; exact Hq].
Qed.

Lemma quiet_in_loop_body {A} (m : M TypeChecker A) :
  keeps quiet_in_loop m ->
  forall tc, 0 <= loops tc ->
    loops (state_of (in_loop m tc)) = loops tc /\
    exists ds, reporter (state_of (in_loop m tc)) = reporter tc ++ ds /\
               Forall (fun d => message d <> break_message) ds.
Proof.
  intros H tc Hpos. unfold in_loop, bind, modify, try_finally.
  specialize (H (set_loops (fun n => n + 1) tc)).
  destruct (m _) as [a tc1 | e tc1]; destruct H as [Hl (ds & Hr & Hq)];
    simpl in *;
    (split; [lia | exists ds; split; [exact Hr | apply Hq; lia]]).
Qed.

Lemma quiet_for_statement stmt : keeps quiet_in_loop (for_statement stmt).
Proof.
  induction stmt using Statement_nested_ind; cbn [for_statement];
    unfold check_local_free, check_local_bound, scope_getitem, in_subscope.
  all: try (repeat first
      [ apply quiet_for_expression
      | apply keeps_try_finally; keeps_tc;
        [| intros ?; apply quiet_same_context; reflexivity]
      | apply keeps_for_each; keeps_tc; assumption
      | match goal with
        | IH : forall s, ?o = Some s -> _ |- keeps _ (for_statement ?s') =>
            apply IH; reflexivity
        end
      | quiet_step ]; fail).
  - (* block *)
    apply keeps_bind; keeps_tc; [| intros ?; apply keeps_ret; keeps_tc].
    apply keeps_bind; keeps_tc; [quiet_step | intros ?].
    apply keeps_try_finally; keeps_tc;
      [ apply keeps_for_each; keeps_tc; assumption
      | intros ?; apply quiet_same_context; reflexivity ].
  - (* while *)
    apply keeps_bind; keeps_tc; [apply quiet_for_expression | intros c'].
    apply keeps_bind; keeps_tc; [| intros ?; apply keeps_ret; keeps_tc].
    intros tc. unfold in_loop, bind, modify, try_finally.
    specialize (IHstmt (set_loops (fun n => n + 1) tc)).
    destruct (for_statement stmt _) as [a tc1 | e tc1];
      destruct IHstmt as [Hl (ds & Hr & Hq)]; simpl in *;
      (split; [simpl; lia
              | exists ds; split; [exact Hr | intros; apply Hq; lia]]).
  - (* break *)
    intros tc. unfold bind, gets, report, modify, ret.
    destruct (bool_decide (loops tc = 0)) eqn:Hz; simpl.
    + apply bool_decide_eq_true in Hz. split; [reflexivity |].
      eexists. split; [reflexivity |]. intros Hpos. lia.
    + apply quiet_same_context; reflexivity.
  - (* continue *)
    intros tc. unfold bind, gets, report, modify, ret.
    destruct (bool_decide (loops tc = 0)) eqn:Hz; simpl.
    + apply bool_decide_eq_true in Hz. split; [reflexivity |].
      eexists. split; [reflexivity |]. intros Hpos. lia.
    + apply quiet_same_context; reflexivity.
Qed.

(** X15: a [break] or [continue] anywhere in the body of a [while] is
    never reported, however deep in blocks and branches it lies, as long
    as the loop counter the statement starts from is not negative (it is 0
    in a new checker); and the counter is back to its value afterwards,
    whether the check returns or raises. *)
Theorem while_body_break_not_reported position condition body tc :
  0 <= loops tc ->
  let tc' := state_of (for_statement
                         (WhileStatement position condition body) tc) in
  loops tc' = loops tc /\
  exists ds, reporter tc' = reporter tc ++ ds /\
             Forall (fun d => message d <> break_message) ds.
Proof.
  intros Hpos. cbv zeta. cbn [for_statement]. unfold bind, ret.
  destruct (never_break_for_expression condition (Some (Basic BOOL)) tc)
    as (d1 & Hr1 & Hq1).
  destruct (keeps_for_expression condition (Some (Basic BOOL)) tc)
    as (_ & _ & Hl1 & _).
  destruct (for_expression condition (Some (Basic BOOL)) tc)
    as [c' tc1 | e tc1]; simpl in Hr1, Hl1.
  - assert (Hpos1 : 0 <= loops tc1) by lia.
    destruct (quiet_in_loop_body (for_statement body)
                (quiet_for_statement body) tc1 Hpos1)
      as (Hl2 & d2 & Hr2 & Hq2).
    destruct (in_loop (for_statement body) tc1) as [b' tc2 | e tc2];
      simpl in *;
      (split; [lia |]); exists (d1 ++ d2);
      (split; [now rewrite Hr2, Hr1, app_assoc | now apply Forall_app]).
  - simpl. split; [exact Hl1 |]. exists d1. split; assumption.
Qed.

Lemma while_body_break_not_reported_witness :
  let tc' := state_of (for_statement
                         (WhileStatement None
                            (Samples.expr (BoolExpression true))
                            (BlockStatement None [BreakStatement None]))
                         Samples.fresh) in
  loops tc' = loops Samples.fresh /\
  exists ds, reporter tc' = reporter Samples.fresh ++ ds /\
             Forall (fun d => message d <> break_message) ds.
Proof.
  apply (while_body_break_not_reported None
           (Samples.expr (BoolExpression true))
           (BlockStatement None [BreakStatement None]) Samples.fresh).
  simpl. lia.
Defined.

(** ** Global variables, parameters, type names *)

Lemma for_expression_keeps_kind expr etype tc expr' tc' :
  for_expression expr etype tc = Ok expr' tc' ->
  expr_position expr' = expr_position expr /\
  check_constant expr' = check_constant expr.
Proof.
  destruct expr as [position type_ node]. cbn [for_expression]. intros Hrun.
  apply bind_Ok_inv in Hrun as ([t n] & tc1 & Hnode & Hrun).
  apply bind_Ok_inv in Hrun as ([] & tc2 & _ & Hrun).
  injection Hrun as <- _. split; [reflexivity |].
  unfold check_constant. cbn [expr_node].
  destruct node; try discriminate Hnode;
    repeat (match goal with
            | H : bind _ _ _ = Ok _ _ |- _ =>
                apply bind_Ok_inv in H as (? & ? & _ & H)
            | H : match ?x with _ => _ end _ = Ok _ _ |- _ => destruct x
            | H : (let (_, _) := ?x in _) _ = Ok _ _ |- _ => destruct x
            end; try discriminate);
    match goal with
    | H : ret _ _ = Ok _ _ |- _ => injection H as _ <- _
    end; reflexivity.
Qed.

(** X16: for a global variable only an integer literal counts as a
    literal.  When the check of the declaration completes, the
    initialiser has been checked against the declared type and the
    diagnostic of a non-literal follows for every other initialiser, a
    boolean literal included. *)
Theorem global_initialiser_literal position name init gtype tc decl' tc' :
  for_topdecl (GlobVarDecl position name init gtype) tc = Ok decl' tc' ->
  exists init' tc1,
    for_expression init (Some gtype) tc = Ok init' tc1 /\
    decl' = GlobVarDecl position name init' gtype /\
    tc' = add_diagnostics
            (match expr_node init with
             | IntExpression _ => []
             | _ => [mkDiagnostic [Lit "this expression is not a literal"]
                                  (expr_position init)]
             end) tc1.
Proof.
  cbn [for_topdecl]. intros Hrun.
  apply bind_Ok_inv in Hrun as (init' & tc1 & Hinit & Hrun).
  apply bind_Ok_inv in Hrun as ([] & tc2 & Hlit & Hrun).
  injection Hrun as <- <-. exists init', tc1.
  split; [exact Hinit |]. split; [reflexivity |].
  destruct (for_expression_keeps_kind _ _ _ _ _ Hinit) as [Hpos Hkind].
  rewrite Hkind, Hpos in Hlit. unfold check_constant in Hlit.
  destruct (expr_node init); cbn [negb] in Hlit;
    first [ injection Hlit as <-; now rewrite add_diagnostics_nil
          | rewrite report_eq in Hlit; now injection Hlit as <- ].
Qed.

Lemma global_initialiser_literal_witness :
  exists init' tc1,
    for_expression (Samples.expr (BoolExpression true)) (Some (Basic BOOL))
      Samples.fresh = Ok init' tc1 /\
    GlobVarDecl None (Samples.name "b")
      (Expr None (Some (Basic BOOL)) (BoolExpression true)) (Basic BOOL)
    = GlobVarDecl None (Samples.name "b") init' (Basic BOOL) /\
    add_diagnostics
      [mkDiagnostic [Lit "this expression is not a literal"] None]
      Samples.fresh
    = add_diagnostics
        [mkDiagnostic [Lit "this expression is not a literal"] None] tc1.
Proof.
  exact (global_initialiser_literal None (Samples.name "b")
           (Samples.expr (BoolExpression true)) (Basic BOOL) Samples.fresh
           _ _ eq_refl).
Defined.

(** X17: of several parameters with one name the first wins.  From a
    scope whose innermost frame is [frame], the loop over the parameters
    always returns; it binds in that frame every name that the frame does
    not bind yet to the type of the first parameter with that name, leaves
    the other frames alone, and records one duplicate diagnostic for each
    parameter whose name is bound already, in order. *)
Theorem for_parameters_first_wins arguments tc frame outer :
  scope tc = frame :: outer ->
  exists frame',
    for_parameters arguments tc =
    Ok tt
       (set_scope (fun _ => frame' :: outer)
          (add_diagnostics
             (map (fun vname =>
                     mkDiagnostic
                       [Lit "duplicated variable declaration for ";
                        PStr (value vname)] None)
                  (duplicate_parameters frame arguments)) tc)) /\
    forall n, frame' !! n =
              match frame !! n with
              | Some t => Some t
              | None => first_parameter n arguments
              end.
Proof.
  revert tc frame.
  induction arguments as [| [vname vtype_] arguments IH]; intros tc frame Hsc.
  - exists frame. split.
    + cbn. rewrite add_diagnostics_nil. unfold ret, set_scope. f_equal.
      destruct tc. simpl in *. now rewrite Hsc.
    + intros n. now destruct (frame !! n).
  - cbn [for_parameters duplicate_parameters first_parameter].
    unfold check_local_free, bind at 1 2, gets. rewrite Hsc.
    cbn [Scope_islocal].
    destruct (frame !! value vname) as [t0 |] eqn:Hf.
    + rewrite bool_decide_eq_true_2 by eauto.
      unfold bind at 1 2. rewrite report_eq. cbn [ret].
      destruct (IH (add_diagnostics
                      [mkDiagnostic
                         [Lit "duplicated variable declaration for ";
                          PStr (value vname)] None] tc) frame Hsc)
        as (frame' & Hrun & Hframe).
      exists frame'. split.
      * unfold bind. rewrite Hrun, add_diagnostics_app. reflexivity.
      * intros n. rewrite Hframe.
        destruct (decide (value vname = n)) as [<- | Hne]; [| reflexivity].
        now rewrite Hf.
    + rewrite bool_decide_eq_false_2
        by (intros [? [=]]).
      cbn [ret]. unfold bind at 1. unfold modify.
      destruct (IH (set_scope (Scope_push (value vname) vtype_) tc)
                  (<[value vname := vtype_]> frame))
        as (frame' & Hrun & Hframe).
      { simpl. now rewrite Hsc. }
      exists frame'. split.
      * rewrite Hrun. reflexivity.
      * intros n. rewrite Hframe.
        destruct (decide (value vname = n)) as [<- | Hne].
        -- now rewrite lookup_insert_eq, Hf.
        -- now rewrite lookup_insert_ne.
Qed.

Lemma for_parameters_first_wins_witness :
  exists frame',
    for_parameters
      [(Samples.name "a", Basic INT); (Samples.name "a", Basic BOOL)]
      Samples.fresh =
    Ok tt
       (set_scope (fun _ => frame' :: [])
          (add_diagnostics
             (map (fun vname =>
                     mkDiagnostic
                       [Lit "duplicated variable declaration for ";
                        PStr (value vname)] None)
                  (duplicate_parameters ∅
                     [(Samples.name "a", Basic INT);
                      (Samples.name "a", Basic BOOL)])) Samples.fresh)) /\
    forall n, frame' !! n =
              match (∅ : gmap string Type_) !! n with
              | Some t => Some t
              | None => first_parameter n
                          [(Samples.name "a", Basic INT);
                           (Samples.name "a", Basic BOOL)]
              end.
Proof.
  exact (for_parameters_first_wins
           [(Samples.name "a", Basic INT); (Samples.name "a", Basic BOOL)]
           Samples.fresh ∅ [] eq_refl).
Defined.

(** X18: no two members of [BasicBXType] print alike, so the type named
    in a diagnostic identifies the member. *)
Theorem BasicBXType_str_injective a b :
  BasicBXType_str a = BasicBXType_str b -> a = b.
Proof. destruct a, b; simpl; intros H; first [reflexivity | discriminate H]. Qed.

Lemma BasicBXType_str_injective_witness : NULL = NULL.
Proof. exact (BasicBXType_str_injective NULL NULL eq_refl). Defined.

(** ** Accepted programs *)

Lemma app_eq_self_nil {A} (l ds : list A) : l = l ++ ds -> ds = [].
Proof.
  intros H. apply (f_equal length) in H. rewrite length_app in H.
  apply length_zero_iff_nil. lia.
Qed.

(** X19: a program that [check] accepts has an entry point: its first
    procedure named [main] exists, takes no parameter and declares no
    return type (or [void]); and the reporter is left exactly as it was
    given. *)
Theorem accepted_program_has_main prgm r r' :
  check prgm r = Ok true r' ->
  r' = r /\
  exists decl,
    first_procedure "main" prgm = Some decl /\
    proc_arguments decl = [] /\
    (rettype decl = None \/ rettype decl = Some (Basic VOID)).
Proof.
  unfold check, check_program, TypeChecker_check, bind, ret. intros Hrun.
  destruct (pretype prgm r) as [[scope procs] r1 | e r1] eqn:Hpre;
    [| discriminate].
  pose proof (grows_for_program prgm (TypeChecker_init scope procs r1))
    as [d2 H2].
  destruct (for_program prgm _) as [prgm' tc | e tc]; [| discriminate].
  simpl in H2. injection Hrun as Hb <-.
  apply bool_decide_eq_true in Hb. simpl in Hb.
  destruct (pretype_main_diagnostic _ _ _ _ _ Hpre) as (r0 & Hloop & Hmain).
  pose proof (grows_pretype_loop prgm Scope_new ∅ r) as [d0 H0].
  rewrite Hloop in H0. simpl in H0.
  assert (Hlen : forall dm, r1 = r0 ++ dm -> dm = [] /\ reporter tc = r).
  { intros dm Hr1. rewrite H2, Hr1, H0 in Hb |- *.
    rewrite !length_app in Hb.
    assert (d0 = []) as -> by (apply length_zero_iff_nil; lia).
    assert (dm = []) as -> by (apply length_zero_iff_nil; lia).
    assert (d2 = []) as -> by (apply length_zero_iff_nil; lia).
    now rewrite !app_nil_r. }
  destruct (first_procedure "main" prgm) as [decl |].
  - destruct Hmain as [Hgood Hbad].
    pose proof (SigType_is_main_signature decl) as Hsig.
    destruct (SigType_is_main (signature_of decl)).
    + assert (Hok : proc_arguments decl = [] /\
                    (rettype decl = None \/ rettype decl = Some (Basic VOID)))
        by now apply Hsig.
      rewrite (Hgood Hok) in H2.
      destruct (Hlen [] ltac:(rewrite app_nil_r; now apply Hgood))
        as [_ Hr].
      split; [exact Hr |]. exists decl. tauto.
    + assert (Hno : ~ (proc_arguments decl = [] /\
                       (rettype decl = None \/
                        rettype decl = Some (Basic VOID)))).
      { intros Hok. apply Hsig in Hok. discriminate. }
      destruct (Hlen _ (Hbad Hno)) as [[=] _].
  - destruct (Hlen _ Hmain) as [[=] _].
Qed.

Lemma accepted_program_has_main_witness :
  ([] : Reporter) = [] /\
  exists decl,
    first_procedure "main" Samples.empty_main = Some decl /\
    proc_arguments decl = [] /\
    (rettype decl = None \/ rettype decl = Some (Basic VOID)).
Proof.
  exact (accepted_program_has_main Samples.empty_main [] [] eq_refl).
Defined.
